(** * Stable Diffusion + ControlNet pipeline on compiled AIT modules

    A shallow embedding of
    [examples/05_stable_diffusion/src/pipeline_stable_diffusion_controlnet_ait.py]:
    the class [StableDiffusionAITPipeline] ([__init__], the four
    [*_inference] methods and [__call__]) and [map_controlnet_params].

    The pipeline is a sequencing script around external collaborators
    (tokenizer, compiled-model runtime, scheduler, model hub).  The
    collaborators are parameters of the development: a record [Env] of
    operations on an abstract world [W].  The Python code is written in a
    state-and-exception monad over that world; every call into a collaborator
    is appended, with its arguments and its outcome, to a trace, so that
    statements of the form "X is passed to Y" are statements about the trace. *)

From Stdlib Require Import ZArith String List Bool Lia.
From Stdlib Require Import Floats.SpecFloat.
From Stdlib Require Import DecimalString.
Import ListNotations.

Open Scope Z_scope.

(** ** Python values and exceptions *)

(** The exact class of a value, as [type(x)] returns it.  [str] and [list]
    can be subclassed; [isinstance] accepts the subclasses, [type(a) is
    type(b)] does not identify them with their base. *)
Inductive pyclass :=
| ClsNoneType
| ClsStr
| ClsStrSub (name : string)
| ClsList
| ClsListSub (name : string)
| ClsInt
| ClsTuple.

Definition pyclass_eqb (a b : pyclass) : bool :=
  match a, b with
  | ClsNoneType, ClsNoneType => true
  | ClsStr, ClsStr => true
  | ClsStrSub n, ClsStrSub m => String.eqb n m
  | ClsList, ClsList => true
  | ClsListSub n, ClsListSub m => String.eqb n m
  | ClsInt, ClsInt => true
  | ClsTuple, ClsTuple => true
  | _, _ => false
  end.

(** The values [prompt] and [negative_prompt] can take.  The optional name
    is the subclass the object was built from ([None]: the builtin). *)
Inductive pyval :=
| VNone
| VStr (sub : option string) (s : string)
| VList (sub : option string) (items : list string)
| VInt (z : Z)
| VTuple (items : list string).

Definition type_of (v : pyval) : pyclass :=
  match v with
  | VNone => ClsNoneType
  | VStr None _ => ClsStr
  | VStr (Some n) _ => ClsStrSub n
  | VList None _ => ClsList
  | VList (Some n) _ => ClsListSub n
  | VInt _ => ClsInt
  | VTuple _ => ClsTuple
  end.

Definition isinstance_str (v : pyval) : bool :=
  match v with VStr _ _ => true | _ => false end.

Definition isinstance_list (v : pyval) : bool :=
  match v with VList _ _ => true | _ => false end.

Definition is_None (v : pyval) : bool :=
  match v with VNone => true | _ => false end.

Inductive exn_class :=
| ValueError
| TypeError
| IndexError
| KeyError
| RuntimeError
| OtherError (name : string).

(** Exceptions, one constructor per [raise] statement of the source, plus
    the exceptions of the Python and torch primitives the source relies on
    and those of the external collaborators. *)
Inductive exn :=
| BadPromptType (got : pyclass)
| BadHeightWidth (height width : Z)
| NegativePromptType (neg prompt : pyclass)
| NegativePromptBatch (neg : pyval) (neg_len : Z) (prompt : pyval) (batch_size : Z)
| UnexpectedLatentsShape (got expected : list Z)
| PyIndexError
| PyUnpackError (expected got : nat)
| PyKeyError (key : string)
| TorchError (msg : string)
| External (cls : exn_class) (msg : string).

Definition class_of (e : exn) : exn_class :=
  match e with
  | BadPromptType _ => ValueError
  | BadHeightWidth _ _ => ValueError
  | NegativePromptType _ _ => TypeError
  | NegativePromptBatch _ _ _ _ => ValueError
  | UnexpectedLatentsShape _ _ => ValueError
  | PyIndexError => IndexError
  | PyUnpackError _ _ => ValueError
  | PyKeyError _ => KeyError
  | TorchError _ => RuntimeError
  | External c _ => c
  end.

Inductive res (A : Type) :=
| Ok (a : A)
| Raise (e : exn).
Arguments Ok {A} a.
Arguments Raise {A} e.

(** How a call into an external collaborator ends: it returns, or raises an
    exception of its own. *)
Inductive outcome (A : Type) :=
| Returned (a : A)
| Raised (cls : exn_class) (msg : string).
Arguments Returned {A} a.
Arguments Raised {A} cls msg.

Definition to_res {A} (o : outcome A) : res A :=
  match o with
  | Returned a => Ok a
  | Raised c m => Raise (External c m)
  end.

Definition res_bind {A B} (r : res A) (k : A -> res B) : res B :=
  match r with
  | Ok a => k a
  | Raise e => Raise e
  end.

Declare Scope res_scope.
Delimit Scope res_scope with res.
Notation "x <~ c ;; k" := (res_bind c (fun x => k))
  (at level 61, c at next level, right associativity) : res_scope.
Open Scope res_scope.

(** ** Floating-point scalars

    Values of [float16], [float32] and Python [float] (binary64) are
    [spec_float]s; the operations round to the format of the tensor or
    scalar they produce. *)

Definition f32_add := SFadd 24 128.
Definition f32_mul := SFmul 24 128.
Definition f32_div := SFdiv 24 128.
Definition f64_div := SFdiv 53 1024.

(** Conversion of a value to a narrower format, round to nearest even. *)
Definition round_to (prec emax : Z) (x : spec_float) : spec_float :=
  match x with
  | S754_finite s m e => binary_normalize prec emax (cond_Zopp s (Zpos m)) e s
  | _ => x
  end.

Definition to_f16 := round_to 11 16.
Definition to_f32 := round_to 24 128.

(** The literal [1.0] of [guidance_scale > 1.0]. *)
Definition f64_one : spec_float := S754_finite false 4503599627370496 (-52).
(** The literal [0.18215]. *)
Definition f64_0_18215 : spec_float := S754_finite false 6562645377004287 (-55).
(** [float32] constants of [(image / 2 + 0.5).clamp(0, 1)]. *)
Definition f32_zero : spec_float := S754_zero false.
Definition f32_half : spec_float := S754_finite false 8388608 (-24).
Definition f32_one : spec_float := S754_finite false 8388608 (-23).
Definition f32_two : spec_float := S754_finite false 8388608 (-22).

(** Python's [a > b] on floats. *)
Definition py_gt (a b : spec_float) : bool := SFltb b a.
(** Python's [a <= b] on floats. *)
Definition py_le (a b : spec_float) : bool := SFleb a b.

Definition is_nan (x : spec_float) : bool :=
  match x with S754_nan => true | _ => false end.

(** ** Tensors

    A tensor is its shape and its elements in row-major order.  Devices,
    strides and the storage dtype are not modelled: [.to(device)],
    [.contiguous()], [.cpu()], [.numpy()] and the widening [.float()] keep
    shape and values. *)

Record tensor := mkTensor { shape : list Z; data : list spec_float }.
Record itensor := mkITensor { ishape : list Z; idata : list Z }.

Inductive any_tensor :=
| FloatT (t : tensor)
| IntT (t : itensor).

Definition to_device (t : tensor) : tensor := t.
Definition contiguous (t : tensor) : tensor := t.
Definition float (t : tensor) : tensor := t.
Definition cpu (t : tensor) : tensor := t.
Definition numpy (t : tensor) : tensor := t.
Definition ito_device (t : itensor) : itensor := t.

Definition tmap (f : spec_float -> spec_float) (t : tensor) : tensor :=
  {| shape := shape t; data := map f (data t) |}.

Definition half (t : tensor) : tensor := tmap to_f16 t.

(** [shape[0]] and [shape[-1]] of a [torch.Size]. *)
Definition shape_first (sh : list Z) : res Z :=
  match sh with
  | d :: _ => Ok d
  | [] => Raise PyIndexError
  end.

Definition shape_last (sh : list Z) : res Z :=
  match sh with
  | [] => Raise PyIndexError
  | d :: r => Ok (last r d)
  end.

(** [l[k] = v] on a Python list, [k] a non-negative literal. *)
Fixpoint list_set (l : list Z) (k : nat) (v : Z) : res (list Z) :=
  match l, k with
  | [], _ => Raise PyIndexError
  | _ :: r, O => Ok (v :: r)
  | d :: r, S k' =>
      match list_set r k' v with
      | Ok r' => Ok (d :: r')
      | Raise e => Raise e
      end
  end.

Definition numel (sh : list Z) : Z := fold_right Z.mul 1 sh.

Definition shape_eqb (a b : list Z) : bool :=
  if list_eq_dec Z.eq_dec a b then true else false.

(** [torch.cat([a, b])] (dimension 0).  A one-dimensional tensor of size 0
    is skipped, as torch does for legacy reasons. *)
Definition torch_cat (a b : tensor) : res tensor :=
  if shape_eqb (shape a) [0] then Ok {| shape := shape b; data := data a ++ data b |}
  else if shape_eqb (shape b) [0] then Ok {| shape := shape a; data := data a ++ data b |}
  else
    match shape a, shape b with
    | n :: ra, m :: rb =>
        if shape_eqb ra rb
        then Ok {| shape := (n + m) :: ra; data := data a ++ data b |}
        else Raise (TorchError "Sizes of tensors must match except in dimension 0")
    | _, _ => Raise (TorchError "zero-dimensional tensor cannot be concatenated")
    end.

(** [t.chunk(2)] (dimension 0): chunks of [ceil(n / 2)] rows; one chunk only
    when there is a single row. *)
Definition torch_chunk2 (t : tensor) : res (list tensor) :=
  match shape t with
  | [] => Raise (TorchError "chunk expects at least a 1-dimensional tensor")
  | n :: rest =>
      if n =? 1 then Ok [t]
      else
        let k := (n + 1) / 2 in
        let cut := Z.to_nat (k * numel rest) in
        Ok [ {| shape := k :: rest; data := firstn cut (data t) |};
             {| shape := (n - k) :: rest; data := skipn cut (data t) |} ]
  end.

(** [a, b = chunks] *)
Definition unpack2 (l : list tensor) : res (tensor * tensor) :=
  match l with
  | [a; b] => Ok (a, b)
  | _ => Raise (PyUnpackError 2 (List.length l))
  end.

(** All multi-indices of a shape, in row-major order. *)
Fixpoint indices (sh : list nat) : list (list nat) :=
  match sh with
  | [] => [[]]
  | d :: r => flat_map (fun i => map (cons i) (indices r)) (seq 0 d)
  end.

(** Row-major strides of a shape. *)
Fixpoint strides (sh : list nat) : list nat :=
  match sh with
  | [] => []
  | _ :: r => fold_right Nat.mul 1%nat r :: strides r
  end.

(** [t.permute(dims)]: dimension [j] of the result is dimension [dims[j]] of
    [t].  The source only passes permutations of [(0, 1, 2, 3)], so the call
    fails exactly when [t] does not have as many dimensions. *)
Definition permute (dims : list nat) (t : tensor) : res tensor :=
  if negb (Nat.eqb (List.length dims) (List.length (shape t)))
  then Raise (TorchError "permute: number of dims don't match")
  else
    let old := map Z.to_nat (shape t) in
    let st := strides old in
    let new := map (fun d => nth d old 0%nat) dims in
    let offset (idx : list nat) :=
      fold_right Nat.add 0%nat
        (map (fun p => (fst p * nth (snd p) st 0%nat)%nat) (combine idx dims)) in
    Ok {| shape := map (fun d => nth d (shape t) 0) dims;
          data := map (fun idx => nth (offset idx) (data t) (S754_zero false))
                      (indices new) |}.

(** [t.expand(n)] for a timestep: a 0-dimensional tensor, or a vector of
    one element, is repeated [n] times. *)
Definition expand (n : Z) (t : tensor) : res tensor :=
  match shape t with
  | [] =>
      if n <? 0 then Raise (TorchError "expand: invalid size")
      else Ok {| shape := [n]; data := concat (repeat (data t) (Z.to_nat n)) |}
  | [k] =>
      if (n =? -1) || (n =? k) then Ok t
      else if (k =? 1) && (0 <=? n)
           then Ok {| shape := [n]; data := concat (repeat (data t) (Z.to_nat n)) |}
           else Raise (TorchError "expand: size must match the existing size")
  | _ => Raise (TorchError "expand: fewer sizes than dimensions")
  end.

(** [torch.arange(seqlen).expand((bs, -1))] *)
Definition position_ids (seqlen bs : Z) : res itensor :=
  if bs <? 0 then Raise (TorchError "expand: invalid size")
  else
    let row := map Z.of_nat (seq 0 (Z.to_nat seqlen)) in
    Ok {| ishape := [bs; seqlen]; idata := concat (repeat row (Z.to_nat bs)) |}.

(** [image / 2] and [image + 0.5] on a [float32] tensor *)
Definition tdiv_scalar (t : tensor) (c : spec_float) : tensor :=
  tmap (fun v => f32_div v c) t.
Definition tadd_scalar (t : tensor) (c : spec_float) : tensor :=
  tmap (fun v => f32_add v c) t.
(** [c * t] for a Python float [c] and a [float32] tensor [t]: the scalar is
    converted to the tensor's dtype. *)
Definition smul (c : spec_float) (t : tensor) : tensor :=
  tmap (fun v => f32_mul (to_f32 c) v) t.

(** [t.clamp(lo, hi)], elementwise [min(max(v, lo), hi)]; a NaN is
    propagated. *)
Definition clamp_elt (lo hi v : spec_float) : spec_float :=
  if is_nan v then v
  else
    let v1 := if SFltb v lo then lo else v in
    if SFltb hi v1 then hi else v1.

Definition clamp (lo hi : spec_float) (t : tensor) : tensor :=
  tmap (clamp_elt lo hi) t.

(** [torch.empty(shape)]: an uninitialised output buffer.  Only its shape is
    kept; the runtime call that fills it supplies the contents. *)
Definition torch_empty (sh : list Z) : res (list Z) :=
  if forallb (fun d => 0 <=? d) sh then Ok sh
  else Raise (TorchError "Trying to create tensor with negative dimension").

(** ** Dictionaries of named tensors *)

Fixpoint dict_set {V : Type} (d : list (string * V)) (k : string) (v : V)
  : list (string * V) :=
  match d with
  | [] => [(k, v)]
  | (k', v') :: r =>
      if String.eqb k k' then (k, v) :: r else (k', v') :: dict_set r k v
  end.

Fixpoint dict_get {V : Type} (d : list (string * V)) (k : string) : option V :=
  match d with
  | [] => None
  | (k', v) :: r => if String.eqb k k' then Some v else dict_get r k
  end.

Definition string_of_nat (n : nat) : string :=
  NilEmpty.string_of_uint (Nat.to_uint n).

(** [enumerate(l)] *)
Definition enumerate {A : Type} (l : list A) : list (nat * A) :=
  combine (seq 0 (List.length l)) l.

(** ** External collaborators *)

(** The four compiled modules, named by the attribute of the pipeline that
    holds them. *)
Inductive ait_module :=
| controlnet_ait_exe
| clip_ait_exe
| unet_ait_exe
| vae_ait_exe.

Inductive generator := Generator (id : nat).

Inductive pil_image := PilImage (width height : Z) (pixels : list Z).

(** The [inputs] argument of [run_with_tensors]: a dict by input name, or a
    list. *)
Inductive run_inputs :=
| InputDict (d : list (string * any_tensor))
| InputList (l : list any_tensor).

(** [extra_step_kwargs]: each key is present or not. *)
Record step_kwargs := mkStepKwargs {
  kw_eta : option spec_float;
  kw_generator : option (option generator)
}.

Definition params := list (string * tensor).

(** What [__init__] fetches from the model hub or from disk. *)
Inductive pretrained :=
| PtControlNet
| PtClip (hf_hub_or_path : string)
| PtClipConfig (hf_hub_or_path : string) (clip_state_dict : params)
| PtUNet (hf_hub_or_path : string)
| PtVae (hf_hub_or_path : string)
| PtTokenizer
| PtScheduler.

(** A checkpoint file: a dict of tensors, possibly wrapped in dicts under the
    key ["state_dict"]. *)
Inductive checkpoint :=
| CkptTensors (d : params)
| CkptNested (other : params) (state_dict : checkpoint).

(** One entry of the trace: a call into a collaborator and how it ended. *)
Inductive event :=
| EvTokenizer (text : pyval) (max_length : Z) (r : res itensor)
| EvRunWithTensors (m : ait_module) (inputs : run_inputs)
    (outputs : list (list Z)) (r : res (list tensor))
| EvRandn (sh : list Z) (g : option generator) (r : res tensor)
| EvSetTimesteps (num_inference_steps : Z) (offset : option Z) (r : res unit)
| EvScaleModelInput (sample t : tensor) (r : res tensor)
| EvStep (model_output t sample : tensor) (kw : step_kwargs) (r : res tensor)
| EvNumpyToPil (image : tensor) (r : res (list pil_image))
| EvModel (m : ait_module) (path : string) (r : res unit)
| EvSetManyConstants (m : ait_module) (p : params) (r : res unit)
| EvFoldConstants (m : ait_module) (r : res unit)
| EvTorchLoad (ckpt : string) (r : res checkpoint)
| EvFromPretrained (what : pretrained) (r : res params).

Set Implicit Arguments.

(** The collaborators.  Stateful operations take and return the world;
    attributes are read from it. *)
Record Env (W : Type) := mkEnv {
  (* transformers.CLIPTokenizer *)
  tokenizer_model_max_length : W -> Z;
  tokenizer_call : pyval -> Z -> W -> outcome itensor * W;
  (* aitemplate.compiler.Model *)
  Model : ait_module -> string -> W -> outcome unit * W;
  set_many_constants_with_tensors : ait_module -> params -> W -> outcome unit * W;
  fold_constants : ait_module -> W -> outcome unit * W;
  get_output_name_to_index_map_len : ait_module -> W -> nat;
  get_output_maximum_shape : ait_module -> nat -> W -> list Z;
  run_with_tensors :
    ait_module -> run_inputs -> list (list Z) -> W -> outcome (list (list spec_float)) * W;
  (* the scheduler *)
  set_timesteps_accepts_offset : W -> bool;
  step_accepts_eta : W -> bool;
  step_accepts_generator : W -> bool;
  set_timesteps : Z -> option Z -> W -> outcome unit * W;
  timesteps : W -> list tensor;
  init_noise_sigma : W -> tensor;
  scale_model_input : tensor -> tensor -> W -> outcome tensor * W;
  step : tensor -> tensor -> tensor -> step_kwargs -> W -> outcome tensor * W;
  (* torch: sampling, and arithmetic between tensors (with broadcasting) *)
  randn_data : list Z -> option generator -> W -> outcome (list spec_float) * W;
  tensor_add : tensor -> tensor -> tensor;
  tensor_sub : tensor -> tensor -> tensor;
  tensor_mul : tensor -> tensor -> tensor;
  (* diffusers.utils.pil_utils *)
  numpy_to_pil : tensor -> W -> outcome (list pil_image) * W;
  (* torch.load, from_pretrained and the checkpoint converters *)
  torch_load : string -> W -> outcome checkpoint * W;
  from_pretrained : pretrained -> W -> outcome params * W;
  convert_ldm_unet_checkpoint : params -> outcome params;
  convert_ldm_vae_checkpoint : params -> outcome params;
  map_clip_state_dict : params -> outcome params;
  map_unet_state_dict : params -> outcome params;
  map_vae : params -> outcome params
}.

(** ** The monad: world, the pipeline's [self.batch], trace; exceptions *)

Record state (W : Type) := mkState {
  world : W;
  batch : Z;
  trace : list event
}.

Unset Implicit Arguments.

Definition M (W A : Type) : Type := state W -> res A * state W.

Definition ret {W A} (a : A) : M W A := fun s => (Ok a, s).

Definition bind {W A B} (c : M W A) (k : A -> M W B) : M W B :=
  fun s =>
    match c s with
    | (Ok a, s') => k a s'
    | (Raise e, s') => (Raise e, s')
    end.

Definition raise {W A} (e : exn) : M W A := fun s => (Raise e, s).

(** A computation that touches neither world nor trace. *)
Definition lift {W A} (r : res A) : M W A := fun s => (r, s).

(** An attribute read from the world. *)
Definition read {W A} (f : W -> A) : M W A := fun s => (Ok (f (world s)), s).

Definition get_batch {W} : M W Z := fun s => (Ok (batch s), s).

Definition set_batch {W} (b : Z) : M W unit :=
  fun s => (Ok tt, {| world := world s; batch := b; trace := trace s |}).

(** A call into a collaborator: run it on the world, record the call and its
    outcome. *)
Definition call {W A} (f : W -> outcome A * W) (ev : res A -> event) : M W A :=
  fun s =>
    let (o, w) := f (world s) in
    (to_res o, {| world := w; batch := batch s; trace := trace s ++ [ev (to_res o)] |}).

(** [try: c except: pass] *)
Definition try {W A} (c : M W A) : M W unit :=
  fun s => (Ok tt, snd (c s)).

Declare Scope monad_scope.
Delimit Scope monad_scope with monad.
Notation "x <- c ;; k" := (bind c (fun x => k))
  (at level 61, c at next level, right associativity) : monad_scope.
Notation "' p <- c ;; k" := (bind c (fun x => match x with p => k end))
  (at level 61, p pattern, c at next level, right associativity) : monad_scope.
Notation "c ;; k" := (bind c (fun _ => k))
  (at level 61, right associativity) : monad_scope.
Open Scope monad_scope.

Fixpoint mapM {W A B} (f : A -> M W B) (l : list A) : M W (list B) :=
  match l with
  | [] => ret []
  | a :: r => b <- f a ;; bs <- mapM f r ;; ret (b :: bs)
  end.

(** ** The pipeline *)

(** The arguments of [__call__]. *)
Record call_args := mkArgs {
  prompt : pyval;
  control_cond : tensor;
  height : Z;
  width : Z;
  num_inference_steps : Z;
  guidance_scale : spec_float;
  negative_prompt : pyval;
  eta : spec_float;
  generator_ : option generator;
  latents : option tensor;
  output_type : option string;
  return_dict : bool
}.

Inductive images :=
| NumpyArray (a : tensor)
| PilImages (l : list pil_image).

Record StableDiffusionPipelineOutput := mkOutput {
  output_images : images;
  nsfw_content_detected : option (list bool)
}.

(** What [__call__] returns: the output object, or a plain tuple. *)
Inductive call_result :=
| RetOutput (o : StableDiffusionPipelineOutput)
| RetTuple (image : images) (has_nsfw_concept : option (list bool)).

(** [ys[0]] and [ys[-1]] *)
Definition list_first {A} (l : list A) : res A :=
  match l with
  | a :: _ => Ok a
  | [] => Raise PyIndexError
  end.

Definition list_last {A} (l : list A) : res A :=
  match l with
  | [] => Raise PyIndexError
  | a :: r => Ok (last r a)
  end.

(** The output buffers after the runtime has written them. *)
Definition filled (ys : list (list Z)) (contents : list (list spec_float))
  : list tensor :=
  map (fun p => {| shape := snd p; data := nth (fst p) contents [] |})
      (enumerate ys).

Definition outcome_map {A B} (f : A -> B) (o : outcome A) : outcome B :=
  match o with
  | Returned a => Returned (f a)
  | Raised c m => Raised c m
  end.

Section Pipeline.

Context {W : Type} (env : Env W).

(** [exe_module.run_with_tensors(inputs, ys, graph_mode=False)]; afterwards
    [ys] holds the outputs. *)
Definition run (exe_module : ait_module) (inputs : run_inputs)
  (ys : list (list Z)) : M W (list tensor) :=
  call (fun w =>
          let (r, w') := run_with_tensors env exe_module inputs ys w in
          (outcome_map (filled ys) r, w'))
       (EvRunWithTensors exe_module inputs ys).

(** The loop [for i in range(num_outputs): ... ys.append(torch.empty(shape))]
    shared by the four inference methods; [adjust] is what the method
    assigns into [shape] before allocating. *)
Definition alloc_outputs (exe_module : ait_module)
  (adjust : list Z -> res (list Z)) : M W (list (list Z)) :=
  num_outputs <- read (get_output_name_to_index_map_len env exe_module) ;;
  mapM (fun i =>
          sh <- read (get_output_maximum_shape env exe_module i) ;;
          sh <- lift (adjust sh) ;;
          lift (torch_empty sh))
       (seq 0 num_outputs).

(** The [inputs] dict of [controlnet_inference]. *)
Definition controlnet_inputs
  (latent_model_input timesteps encoder_hidden_states controlnet_cond : tensor)
  : res run_inputs :=
  n <~ shape_first (shape latent_model_input) ;;
  timesteps_pt <~ expand n timesteps ;;
  input0 <~ permute [0; 2; 3; 1]%nat latent_model_input ;;
  input3 <~ permute [0; 2; 3; 1]%nat controlnet_cond ;;
  Ok (InputDict
    [ ("input0"%string, FloatT (half (to_device (contiguous input0))));
      ("input1"%string, FloatT (half (to_device timesteps_pt)));
      ("input2"%string, FloatT (half (to_device encoder_hidden_states)));
      ("input3"%string, FloatT (half (to_device (contiguous input3)))) ]).

(** [down_block_residuals = (y for y in ys[:-1])] and
    [mid_block_residuals = ys[-1]] *)
Definition controlnet_output (ys : list tensor) : res (list tensor * tensor) :=
  let down_block_residuals := removelast ys in
  mid_block_residuals <~ list_last ys ;;
  Ok (down_block_residuals, mid_block_residuals).

Definition controlnet_inference
  (latent_model_input timesteps encoder_hidden_states controlnet_cond : tensor)
  : M W (list tensor * tensor) :=
  let exe_module := controlnet_ait_exe in
  inputs <- lift (controlnet_inputs latent_model_input timesteps
                    encoder_hidden_states controlnet_cond) ;;
  ys <- alloc_outputs exe_module (fun sh => Ok sh) ;;
  ys <- run exe_module inputs ys ;;
  lift (controlnet_output ys).

(** The [inputs] dict of [unet_inference]; [b] is [self.batch]. *)
Definition unet_inputs (b : Z)
  (latent_model_input timesteps encoder_hidden_states : tensor)
  (down_block_residuals : list tensor) (mid_block_residual : tensor)
  : res run_inputs :=
  timesteps_pt <~ expand (b * 2) timesteps ;;
  input0 <~ permute [0; 2; 3; 1]%nat latent_model_input ;;
  let inputs :=
    [ ("input0"%string, FloatT (half (to_device (contiguous input0))));
      ("input1"%string, FloatT (half (to_device timesteps_pt)));
      ("input2"%string, FloatT (half (to_device encoder_hidden_states))) ] in
  let inputs :=
    fold_left
      (fun d iy =>
         dict_set d ("down_block_residual_" ++ string_of_nat (fst iy))%string
                  (FloatT (snd iy)))
      (enumerate down_block_residuals) inputs in
  let inputs := dict_set inputs "mid_block_residual"%string
                         (FloatT mid_block_residual) in
  Ok (InputDict inputs).

(** [shape[0] = self.batch * 2; shape[1] = d1; shape[2] = d2] *)
Definition set_leading (b d1 d2 : Z) (sh : list Z) : res (list Z) :=
  sh <~ list_set sh 0 (b * 2) ;;
  sh <~ list_set sh 1 d1 ;;
  list_set sh 2 d2.

(** [ys[0].permute((0, 3, 1, 2)).float()], what [unet_inference] and
    [vae_inference] return *)
Definition nchw_output (ys : list tensor) : res tensor :=
  y0 <~ list_first ys ;;
  out <~ permute [0; 3; 1; 2]%nat y0 ;;
  Ok (float out).

Definition unet_inference
  (latent_model_input timesteps encoder_hidden_states : tensor)
  (height width : Z)
  (down_block_residuals : list tensor) (mid_block_residual : tensor)
  : M W tensor :=
  let exe_module := unet_ait_exe in
  b <- get_batch ;;
  inputs <- lift (unet_inputs b latent_model_input timesteps
                    encoder_hidden_states down_block_residuals
                    mid_block_residual) ;;
  ys <- alloc_outputs exe_module (set_leading b (height / 8) (width / 8)) ;;
  ys <- run exe_module inputs ys ;;
  lift (nchw_output ys).

Definition clip_inputs (input_ids : itensor) (seqlen : Z) : res run_inputs :=
  bs <~ shape_first (ishape input_ids) ;;
  position_ids <~ position_ids seqlen bs ;;
  Ok (InputDict
    [ ("input0"%string, IntT input_ids);
      ("input1"%string, IntT (ito_device position_ids)) ]).

Definition clip_inference (input_ids : itensor) (seqlen : Z) : M W tensor :=
  let exe_module := clip_ait_exe in
  inputs <- lift (clip_inputs input_ids seqlen) ;;
  b <- get_batch ;;
  ys <- alloc_outputs exe_module (fun sh => list_set sh 0 b) ;;
  ys <- run exe_module inputs ys ;;
  y0 <- lift (list_first ys) ;;
  ret (float y0).

Definition vae_inputs (vae_input : tensor) : res run_inputs :=
  input0 <~ permute [0; 2; 3; 1]%nat vae_input ;;
  Ok (InputList [ FloatT (half (to_device (contiguous input0))) ]).

Definition vae_inference (vae_input : tensor) (height width : Z) : M W tensor :=
  let exe_module := vae_ait_exe in
  inputs <- lift (vae_inputs vae_input) ;;
  b <- get_batch ;;
  ys <- alloc_outputs exe_module (set_leading b height width) ;;
  ys <- run exe_module inputs ys ;;
  lift (nchw_output ys).

(** *** [__call__] *)

(** [len(x)] *)
Definition py_len (v : pyval) : res Z :=
  match v with
  | VStr _ s => Ok (Z.of_nat (String.length s))
  | VList _ items => Ok (Z.of_nat (List.length items))
  | VTuple items => Ok (Z.of_nat (List.length items))
  | _ => Raise (External TypeError "object has no len()")
  end.

(** The first guard: [batch_size] from the type of [prompt]. *)
Definition batch_size_of (prompt : pyval) : res Z :=
  if isinstance_str prompt then Ok 1
  else if isinstance_list prompt then py_len prompt
  else Raise (BadPromptType (type_of prompt)).

(** The second guard: [height % 8 != 0 or width % 8 != 0]. *)
Definition check_height_width (height width : Z) : res unit :=
  if negb (height mod 8 =? 0) || negb (width mod 8 =? 0)
  then Raise (BadHeightWidth height width)
  else Ok tt.

(** [self.tokenizer(text, padding="max_length", max_length=max_length,
    truncation=True, return_tensors="pt").input_ids] *)
Definition tokenizer (text : pyval) (max_length : Z) : M W itensor :=
  call (tokenizer_call env text max_length) (EvTokenizer text max_length).

(** The chain [if negative_prompt is None ... else: uncond_tokens =
    negative_prompt]. *)
Definition uncond_tokens_of (prompt negative_prompt : pyval) (batch_size : Z)
  : res pyval :=
  if is_None negative_prompt
  then Ok (VList None (repeat ""%string (Z.to_nat batch_size)))
  else if negb (pyclass_eqb (type_of prompt) (type_of negative_prompt))
  then Raise (NegativePromptType (type_of negative_prompt) (type_of prompt))
  else
    match negative_prompt with
    | VStr _ s => Ok (VList None [s])
    | _ =>
        n <~ py_len negative_prompt ;;
        if negb (batch_size =? n)
        then Raise (NegativePromptBatch negative_prompt n prompt batch_size)
        else Ok negative_prompt
    end.

(** [do_classifier_free_guidance = guidance_scale > 1.0] *)
Definition do_classifier_free_guidance (a : call_args) : bool :=
  py_gt (guidance_scale a) f64_one.

(** The prompt, tokenized and run through CLIP. *)
Definition encode_prompt (a : call_args) : M W (itensor * tensor) :=
  max_length <- read (tokenizer_model_max_length env) ;;
  text_input <- tokenizer (prompt a) max_length ;;
  text_embeddings <- clip_inference (ito_device text_input) 77 ;;
  ret (text_input, text_embeddings).

(** Prompt embeddings and, under guidance, the unconditional embeddings
    concatenated in front of them. *)
Definition text_embeddings_of (a : call_args) (batch_size : Z) : M W tensor :=
  encoded <- encode_prompt a ;;
  let text_input := fst encoded in
  let text_embeddings := snd encoded in
  if do_classifier_free_guidance a then
    max_length <- lift (shape_last (ishape text_input)) ;;
    uncond_tokens <-
      lift (uncond_tokens_of (prompt a) (negative_prompt a) batch_size) ;;
    uncond_input <- tokenizer uncond_tokens max_length ;;
    uncond_embeddings <- clip_inference (ito_device uncond_input) 77 ;;
    lift (torch_cat uncond_embeddings text_embeddings)
  else ret text_embeddings.

(** [torch.randn(latents_shape, generator=generator, device=latents_device)] *)
Definition randn (sh : list Z) (g : option generator) : M W tensor :=
  call (fun w =>
          if forallb (fun d => 0 <=? d) sh then
            let (r, w') := randn_data env sh g w in
            (outcome_map (mkTensor sh) r, w')
          else
            (Raised RuntimeError "Trying to create tensor with negative dimension",
             w))
       (EvRandn sh g).

Definition latents_shape (a : call_args) (batch_size : Z) : list Z :=
  [batch_size; 4; height a / 8; width a / 8].

(** The initial noise: sampled, or supplied and checked. *)
Definition initial_latents (a : call_args) (batch_size : Z) : M W tensor :=
  latents <-
    match latents a with
    | None => randn (latents_shape a batch_size) (generator_ a)
    | Some latents =>
        if negb (shape_eqb (shape latents) (latents_shape a batch_size))
        then raise (UnexpectedLatentsShape (shape latents)
                      (latents_shape a batch_size))
        else ret latents
    end ;;
  ret (to_device latents).

(** [set_timesteps], the scaling by [init_noise_sigma], and
    [extra_step_kwargs]. *)
Definition prepare_scheduler (a : call_args) (latents : tensor)
  : M W (tensor * step_kwargs) :=
  accepts_offset <- read (set_timesteps_accepts_offset env) ;;
  let offset := if accepts_offset : bool then Some 1 else None in
  call (set_timesteps env (num_inference_steps a) offset)
       (EvSetTimesteps (num_inference_steps a) offset) ;;
  sigma <- read (init_noise_sigma env) ;;
  let latents := tensor_mul env latents sigma in
  accepts_eta <- read (step_accepts_eta env) ;;
  accepts_generator <- read (step_accepts_generator env) ;;
  ret (latents,
       {| kw_eta := if accepts_eta : bool then Some (eta a) else None;
          kw_generator :=
            if accepts_generator : bool then Some (generator_ a) else None |}).

(** [noise_pred_uncond + guidance_scale * (noise_pred_text - noise_pred_uncond)] *)
Definition guided (guidance_scale : spec_float)
  (noise_pred_uncond noise_pred_text : tensor) : tensor :=
  tensor_add env noise_pred_uncond
    (smul guidance_scale (tensor_sub env noise_pred_text noise_pred_uncond)).

(** The guidance step of the loop body. *)
Definition perform_guidance (a : call_args) (noise_pred : tensor) : res tensor :=
  if do_classifier_free_guidance a then
    chunks <~ torch_chunk2 noise_pred ;;
    p <~ unpack2 chunks ;;
    Ok (guided (guidance_scale a) (fst p) (snd p))
  else Ok noise_pred.

(** [torch.cat([latents] * 2) if do_classifier_free_guidance else latents] *)
Definition expand_latents (a : call_args) (latents : tensor) : res tensor :=
  if do_classifier_free_guidance a then torch_cat latents latents
  else Ok latents.

(** The body of [for t in tqdm(self.scheduler.timesteps)]. *)
Definition denoise_step (a : call_args) (text_embeddings : tensor)
  (extra_step_kwargs : step_kwargs) (t latents : tensor) : M W tensor :=
  latent_model_input <- lift (expand_latents a latents) ;;
  latent_model_input <-
    call (scale_model_input env latent_model_input t)
         (EvScaleModelInput latent_model_input t) ;;
  residuals <-
    controlnet_inference latent_model_input t text_embeddings (control_cond a) ;;
  noise_pred <-
    unet_inference latent_model_input t text_embeddings (height a) (width a)
                   (fst residuals) (snd residuals) ;;
  noise_pred <- lift (perform_guidance a noise_pred) ;;
  call (step env noise_pred t latents extra_step_kwargs)
       (EvStep noise_pred t latents extra_step_kwargs).

Fixpoint denoise (a : call_args) (text_embeddings : tensor)
  (extra_step_kwargs : step_kwargs) (ts : list tensor) (latents : tensor)
  : M W tensor :=
  match ts with
  | [] => ret latents
  | t :: ts' =>
      latents <- denoise_step a text_embeddings extra_step_kwargs t latents ;;
      denoise a text_embeddings extra_step_kwargs ts' latents
  end.

(** [1 / 0.18215] *)
Definition vae_scale : spec_float := f64_div f64_one f64_0_18215.

(** [(image / 2 + 0.5).clamp(0, 1)] *)
Definition normalize_image (image : tensor) : tensor :=
  clamp f32_zero f32_one (tadd_scalar (tdiv_scalar image f32_two) f32_half).

Definition is_pil (output_type : option string) : bool :=
  match output_type with
  | Some s => String.eqb s "pil"
  | None => false
  end.

(** From the decoded image to the result: normalisation, layout, output
    type. *)
Definition postprocess (a : call_args) (image : tensor) : M W call_result :=
  let image := normalize_image image in
  image <- lift (permute [0; 2; 3; 1]%nat (cpu image)) ;;
  let image := numpy image in
  let has_nsfw_concept : option (list bool) := None in
  image <-
    (if is_pil (output_type a)
     then l <- call (numpy_to_pil env image) (EvNumpyToPil image) ;;
          ret (PilImages l)
     else ret (NumpyArray image)) ;;
  if negb (return_dict a) then ret (RetTuple image has_nsfw_concept)
  else ret (RetOutput {| output_images := image;
                         nsfw_content_detected := has_nsfw_concept |}).

(** Everything after the loop. *)
Definition decode (a : call_args) (latents : tensor) : M W call_result :=
  let latents := smul vae_scale latents in
  image <- vae_inference latents (height a) (width a) ;;
  postprocess a image.

(** What the loop needs from the code before it. *)
Record prepared := mkPrepared {
  p_text_embeddings : tensor;
  p_latents : tensor;
  p_extra_step_kwargs : step_kwargs;
  p_timesteps : list tensor
}.

(** From the embeddings to the timesteps: what [__call__] does between
    [self.batch = batch_size] and the loop. *)
Definition prepare_inputs (a : call_args) (batch_size : Z) : M W prepared :=
  text_embeddings <- text_embeddings_of a batch_size ;;
  latents <- initial_latents a batch_size ;;
  lk <- prepare_scheduler a latents ;;
  ts <- read (timesteps env) ;;
  ret {| p_text_embeddings := text_embeddings;
         p_latents := fst lk;
         p_extra_step_kwargs := snd lk;
         p_timesteps := ts |}.

(** [__call__] up to the loop. *)
Definition prepare (a : call_args) : M W prepared :=
  batch_size <- lift (batch_size_of (prompt a)) ;;
  lift (check_height_width (height a) (width a)) ;;
  set_batch batch_size ;;
  prepare_inputs a batch_size.

Definition __call__ (a : call_args) : M W call_result :=
  p <- prepare a ;;
  latents <- denoise a (p_text_embeddings p) (p_extra_step_kwargs p)
                     (p_timesteps p) (p_latents p) ;;
  decode a latents.

End Pipeline.

(** ** Strings and paths *)

(** [s.replace(old, new)] for a non-empty [old]: every occurrence, leftmost
    first, without overlap.  [skip] counts the characters of a match still
    to be dropped. *)
Fixpoint replace_from (old new : string) (skip : nat) (s : string) : string :=
  match s with
  | EmptyString => EmptyString
  | String c s' =>
      match skip with
      | S k => replace_from old new k s'
      | O =>
          if String.prefix old s
          then (new ++ replace_from old new (String.length old - 1) s')%string
          else String c (replace_from old new 0 s')
      end
  end.

Definition str_replace (old new s : string) : string :=
  replace_from old new 0 s.

(** [s.endswith(suffix)] *)
Definition endswith (s suffix : string) : bool :=
  let n := String.length s in
  let m := String.length suffix in
  (m <=? n)%nat && String.eqb (String.substring (n - m) m s) suffix.

(** [os.path.join(workdir, model_name, "test.so")], the last two components
    being relative. *)
Definition path_join (workdir model_name file : string) : string :=
  let dir :=
    if String.eqb workdir "" || endswith workdir "/" then workdir
    else (workdir ++ "/")%string in
  (dir ++ model_name ++ "/" ++ file)%string.

(** ** [map_controlnet_params] *)

(** [torch.nn.functional.pad(t, (0, 1, 0, 0, 0, 0, 0, 0))]: one zero appended
    to every row of the last of (at least) four dimensions. *)
Definition pad_last (t : tensor) : res tensor :=
  if (List.length (shape t) <? 4)%nat
  then Raise (TorchError "Padding length too large")
  else
    let w := Z.to_nat (last (shape t) 0) in
    let rows := Z.to_nat (numel (removelast (shape t))) in
    Ok {| shape := removelast (shape t) ++ [last (shape t) 0 + 1];
          data := flat_map
                    (fun i => firstn w (skipn (i * w) (data t)) ++ [S754_zero false])
                    (seq 0 rows) |}.

(** [torch.arange(start=0, end=n, dtype=torch.float32).half()] *)
Definition arange_half (n : nat) : tensor :=
  half {| shape := [Z.of_nat n];
          data := map (fun k => binary_normalize 24 128 (Z.of_nat k) 0 false)
                      (seq 0 n) |}.

(** One turn of the loop over [pt_params.items()]. *)
Definition map_controlnet_param (params_ait : params) (entry : string * tensor)
  : res params :=
  let (key, arr) := entry in
  let split_proj :=
    chunks <~ torch_chunk2 arr ;;
    w <~ unpack2 chunks ;;
    let params_ait := dict_set params_ait (str_replace "." "_" key) (fst w) in
    Ok (dict_set params_ait
          (str_replace "proj" "gate" (str_replace "." "_" key)) (snd w)) in
  if (List.length (shape arr) =? 4)%nat then
    arr <~ permute [0; 2; 3; 1]%nat arr ;;
    Ok (dict_set params_ait (str_replace "." "_" key) (contiguous arr))
  else if endswith key "ff.net.0.proj.weight" then split_proj
  else if endswith key "ff.net.0.proj.bias" then split_proj
  else Ok (dict_set params_ait (str_replace "." "_" key) arr).

Fixpoint map_controlnet_loop (params_ait : params) (items : params) : res params :=
  match items with
  | [] => Ok params_ait
  | entry :: rest =>
      params_ait <~ map_controlnet_param params_ait entry ;;
      map_controlnet_loop params_ait rest
  end.

Definition map_controlnet_params (pt_params : params) : res params :=
  params_ait <~ map_controlnet_loop [] pt_params ;;
  let k := "controlnet_cond_embedding_conv_in_weight"%string in
  match dict_get params_ait k with
  | None => Raise (PyKeyError k)
  | Some w =>
      w <~ pad_last w ;;
      let params_ait := dict_set params_ait k w in
      Ok (dict_set params_ait "arange" (to_device (arange_half (Z.to_nat (320 / 2)))))
  end.

(** ** [__init__] *)

(** [while "state_dict" in state_dict: state_dict = state_dict["state_dict"]];
    the test fails on a tensor. *)
Fixpoint unwrap_state_dict (c : checkpoint) : res params :=
  match c with
  | CkptNested _ inner => unwrap_state_dict inner
  | CkptTensors d =>
      match dict_get d "state_dict" with
      | Some _ => Raise (TorchError "Tensor.__contains__: invalid argument")
      | None => Ok d
      end
  end.

Record state_dicts := mkStateDicts {
  clip_state_dict : params;
  unet_state_dict : params;
  vae_state_dict : params
}.

(** One turn of [for key in state_dict.keys()]. *)
Definition route_key (acc : state_dicts) (entry : string * tensor) : state_dicts :=
  let (key, value) := entry in
  let strip p := str_replace p "" key in
  if String.prefix "cond_stage_model.transformer." key then
    {| clip_state_dict :=
         dict_set (clip_state_dict acc) (strip "cond_stage_model.transformer."%string) value;
       unet_state_dict := unet_state_dict acc;
       vae_state_dict := vae_state_dict acc |}
  else if String.prefix "cond_stage_model.model." key then
    {| clip_state_dict :=
         dict_set (clip_state_dict acc) (strip "cond_stage_model.model."%string) value;
       unet_state_dict := unet_state_dict acc;
       vae_state_dict := vae_state_dict acc |}
  else if String.prefix "first_stage_model." key then
    {| clip_state_dict := clip_state_dict acc;
       unet_state_dict := unet_state_dict acc;
       vae_state_dict :=
         dict_set (vae_state_dict acc) (strip "first_stage_model."%string) value |}
  else if String.prefix "model.diffusion_model." key then
    {| clip_state_dict := clip_state_dict acc;
       unet_state_dict :=
         dict_set (unet_state_dict acc) (strip "model.diffusion_model."%string) value;
       vae_state_dict := vae_state_dict acc |}
  else acc.

Definition split_state_dict (state_dict : params) : state_dicts :=
  fold_left route_key state_dict
    {| clip_state_dict := []; unet_state_dict := []; vae_state_dict := [] |}.

Section Init.

Context {W : Type} (env : Env W).

Definition init_ait_module (exe : ait_module) (model_name workdir : string)
  : M W unit :=
  let path := path_join workdir model_name "test.so" in
  call (Model env exe path) (EvModel exe path).

Definition pretrained_params (what : pretrained) : M W params :=
  call (from_pretrained env what) (EvFromPretrained what).

(** [exe.set_many_constants_with_tensors(p); exe.fold_constants()] *)
Definition bind_constants (exe : ait_module) (p : params) : M W unit :=
  call (set_many_constants_with_tensors env exe p) (EvSetManyConstants exe p) ;;
  call (fold_constants env exe) (EvFoldConstants exe).

(** The [if ckpt is not None:] block. *)
Definition load_checkpoint (ckpt : option string) : M W (option state_dicts) :=
  match ckpt with
  | None => ret None
  | Some file =>
      c <- call (torch_load env file) (EvTorchLoad file) ;;
      state_dict <- lift (unwrap_state_dict c) ;;
      let d := split_state_dict state_dict in
      unet <- lift (to_res (convert_ldm_unet_checkpoint env (unet_state_dict d))) ;;
      vae <- lift (to_res (convert_ldm_vae_checkpoint env (vae_state_dict d))) ;;
      ret (Some {| clip_state_dict := clip_state_dict d;
                   unet_state_dict := unet;
                   vae_state_dict := vae |})
  end.

Definition __init__ (hf_hub_or_path : string) (ckpt : option string)
  (workdir : string) : M W unit :=
  d <- load_checkpoint ckpt ;;
  (* ControlNet *)
  init_ait_module controlnet_ait_exe "ControlNetModel" "./tmp" ;;
  controlnet_pt <- pretrained_params PtControlNet ;;
  ait_params <- lift (map_controlnet_params controlnet_pt) ;;
  bind_constants controlnet_ait_exe ait_params ;;
  (* CLIP *)
  init_ait_module clip_ait_exe "CLIPTextModel" workdir ;;
  clip_pt <-
    match d with
    | None => pretrained_params (PtClip hf_hub_or_path)
    | Some d => pretrained_params (PtClipConfig hf_hub_or_path (clip_state_dict d))
    end ;;
  clip_params_ait <- lift (to_res (map_clip_state_dict env clip_pt)) ;;
  bind_constants clip_ait_exe clip_params_ait ;;
  (* UNet *)
  init_ait_module unet_ait_exe "ControlNetUNet2DConditionModel" workdir ;;
  unet_pt <-
    match d with
    | None => pretrained_params (PtUNet hf_hub_or_path)
    | Some d => ret (unet_state_dict d)
    end ;;
  unet_params_ait <- lift (to_res (map_unet_state_dict env unet_pt)) ;;
  bind_constants unet_ait_exe unet_params_ait ;;
  (* VAE *)
  init_ait_module vae_ait_exe "AutoencoderKL" workdir ;;
  vae_pt <-
    match d with
    | None => pretrained_params (PtVae hf_hub_or_path)
    | Some d => ret (vae_state_dict d)
    end ;;
  vae_params_ait <- lift (to_res (map_vae env vae_pt)) ;;
  bind_constants vae_ait_exe vae_params_ait ;;
  (* tokenizer, scheduler *)
  pretrained_params PtTokenizer ;;
  pretrained_params PtScheduler ;;
  set_batch 1.

(** What the client does to the world between two calls. *)
Definition client (f : W -> W) : M W unit :=
  fun s => (Ok tt, {| world := f (world s); batch := batch s; trace := trace s |}).

(** What a client can ask of a pipeline it has built: a call, or one of
    the four inference methods. *)
Inductive invocation :=
| Call (a : call_args)
| ControlnetInference
    (latent_model_input timesteps encoder_hidden_states controlnet_cond : tensor)
| UnetInference
    (latent_model_input timesteps encoder_hidden_states : tensor)
    (height width : Z)
    (down_block_residuals : list tensor) (mid_block_residual : tensor)
| ClipInference (input_ids : itensor) (seqlen : Z)
| VaeInference (vae_input : tensor) (height width : Z).

(** The invocation, with what it raises caught by the client. *)
Definition invoke (i : invocation) : M W unit :=
  match i with
  | Call a => try (__call__ env a)
  | ControlnetInference x t te c => try (controlnet_inference env x t te c)
  | UnetInference x t te h w d m => try (unet_inference env x t te h w d m)
  | ClipInference input_ids seqlen => try (clip_inference env input_ids seqlen)
  | VaeInference x h w => try (vae_inference env x h w)
  end.

(** A client of the class: it builds the pipeline and, if that succeeds,
    uses it any number of times, catching what an invocation raises; between
    the invocations it may change the world. *)
Definition session (hf_hub_or_path : string) (ckpt : option string)
  (workdir : string) (calls : list ((W -> W) * invocation)) : M W unit :=
  __init__ hf_hub_or_path ckpt workdir ;;
  mapM (fun c => client (fst c) ;; invoke (snd c)) calls ;;
  ret tt.

End Init.

(** ** What the trace of a denoising loop looks like

    The statements about the loop are statements about the calls the
    pipeline makes into the scheduler and the runtime.  [iteration] describes
    the calls of one turn of the loop and how the result of each feeds the
    next; [loop_run] chains the turns along the timesteps. *)

Section LoopTrace.

Context {W : Type} (env : Env W) (a : call_args).
(** [self.batch], the text embeddings and [extra_step_kwargs] during the
    loop *)
Context (b : Z) (text_embeddings : tensor) (kw : step_kwargs).

(** The runtime writes its outputs into the buffers it is given: as many
    tensors, with the shapes the buffers were allocated with. *)
Definition in_place (buffers : list (list Z)) (out : res (list tensor)) : Prop :=
  match out with
  | Ok ys => map shape ys = buffers
  | Raise _ => True
  end.

(** The latent model input before scaling: the latents, twice along the batch
    dimension, when [guidance_scale > 1.0]; the latents themselves
    otherwise. *)
Definition duplicated (latents latent_model_input : tensor) : Prop :=
  if py_gt (guidance_scale a) f64_one then
    exists n rest,
      shape latents = n :: rest /\
      latent_model_input =
        {| shape := (2 * n) :: rest; data := data latents ++ data latents |}
  else latent_model_input = latents.

(** [scale_model_input] is called on that input and the timestep. *)
Definition scale_event (t latents : tensor) (e : event) (x : res tensor) : Prop :=
  exists latent_model_input,
    duplicated latents latent_model_input /\
    e = EvScaleModelInput latent_model_input t x.

(** The ControlNet module is run on the scaled input [x]. *)
Definition controlnet_event (t x : tensor) (e : event) (out : res (list tensor))
  : Prop :=
  exists inputs buffers,
    controlnet_inputs x t text_embeddings (control_cond a) = Ok inputs /\
    in_place buffers out /\
    e = EvRunWithTensors controlnet_ait_exe inputs buffers out.

(** The UNet module is run on the same [x], with the outputs of the
    ControlNet run as residuals: all but the last as down-block residuals,
    the last as mid-block residual.  Its output buffers have [2 * self.batch]
    rows. *)
Definition unet_event (t x : tensor) (controlnet_out : list tensor)
  (e : event) (out : res (list tensor)) : Prop :=
  exists mid inputs buffers,
    list_last controlnet_out = Ok mid /\
    unet_inputs b x t text_embeddings (removelast controlnet_out) mid = Ok inputs /\
    Forall (fun sh => exists rest, sh = (b * 2) :: rest) buffers /\
    in_place buffers out /\
    e = EvRunWithTensors unet_ait_exe inputs buffers out.

(** [scheduler.step] is called on the noise prediction ([noise_pred], what
    [unet_inference] returns for the outputs of the UNet run) after guidance,
    the timestep and the latents of this turn. *)
Definition step_event (t latents : tensor) (unet_out : list tensor)
  (e : event) (r : res tensor) : Prop :=
  exists noise_pred model_output,
    nchw_output unet_out = Ok noise_pred /\
    perform_guidance env a noise_pred = Ok model_output /\
    e = EvStep model_output t latents kw r.

(** The calls of one turn of the loop, on timestep [t] and latents
    [latents], and its outcome: four calls when nothing raises before
    [scheduler.step], a prefix of them otherwise. *)
Definition iteration (t latents : tensor) (evs : list event) (r : res tensor)
  : Prop :=
  match evs with
  | [] => exists e, r = Raise e
  | [e1] =>
      exists x e, scale_event t latents e1 x /\ r = Raise e
  | [e1; e2] =>
      exists x out e,
        scale_event t latents e1 (Ok x) /\
        controlnet_event t x e2 out /\ r = Raise e
  | [e1; e2; e3] =>
      exists x cn out e,
        scale_event t latents e1 (Ok x) /\
        controlnet_event t x e2 (Ok cn) /\
        unet_event t x cn e3 out /\ r = Raise e
  | [e1; e2; e3; e4] =>
      exists x cn un,
        scale_event t latents e1 (Ok x) /\
        controlnet_event t x e2 (Ok cn) /\
        unet_event t x cn e3 (Ok un) /\
        step_event t latents un e4 r
  | _ => False
  end.

(** The loop over the timesteps [ts] from the latents [latents]: the turns
    follow the order of [ts]; the latents of a turn are [prev_sample] of the
    turn before; the loop ends with the latents of the last turn, or with the
    exception of the first turn that raises. *)
Inductive loop_run : list tensor -> tensor -> list event -> res tensor -> Prop :=
| loop_done latents :
    loop_run [] latents [] (Ok latents)
| loop_turn t ts latents evs prev_sample evs' r :
    iteration t latents evs (Ok prev_sample) ->
    loop_run ts prev_sample evs' r ->
    loop_run (t :: ts) latents (evs ++ evs') r
| loop_raise t ts latents evs e :
    iteration t latents evs (Raise e) ->
    loop_run (t :: ts) latents evs (Raise e).

(** After the loop: the VAE module is run on [1 / 0.18215 * latents]. *)
Definition vae_event (latents : tensor) (e : event) : Prop :=
  exists inputs buffers out,
    vae_inputs (smul vae_scale latents) = Ok inputs /\
    in_place buffers out /\
    e = EvRunWithTensors vae_ait_exe inputs buffers out.

End LoopTrace.

(** A property of every entry of a trace and the entry before it. *)
Fixpoint chain (P : option event -> event -> Prop) (prev : option event)
  (evs : list event) : Prop :=
  match evs with
  | [] => True
  | e :: r => P prev e /\ chain P (Some e) r
  end.

(** [u] and [v] are the first and the second half of [t] along the batch
    dimension: [t] has [2 * n] rows, [u] is its rows [0 .. n-1] and [v] its
    rows [n .. 2n-1]. *)
Definition halves (t u v : tensor) : Prop :=
  exists n rest,
    shape t = (2 * n) :: rest /\
    u = {| shape := n :: rest;
           data := firstn (Z.to_nat (n * numel rest)) (data t) |} /\
    v = {| shape := n :: rest;
           data := skipn (Z.to_nat (n * numel rest)) (data t) |}.

(** The second element of the result: [nsfw_content_detected], or the second
    component of the tuple. *)
Definition nsfw_of (r : call_result) : option (list bool) :=
  match r with
  | RetOutput o => nsfw_content_detected o
  | RetTuple _ n => n
  end.

Definition images_of (r : call_result) : images :=
  match r with
  | RetOutput o => output_images o
  | RetTuple i _ => i
  end.

(** [a] with another [negative_prompt] *)
Definition with_negative_prompt (n : pyval) (a : call_args) : call_args :=
  {| prompt := prompt a;
     control_cond := control_cond a;
     height := height a;
     width := width a;
     num_inference_steps := num_inference_steps a;
     guidance_scale := guidance_scale a;
     negative_prompt := n;
     eta := eta a;
     generator_ := generator_ a;
     latents := latents a;
     output_type := output_type a;
     return_dict := return_dict a |}.

(** Exceptions of the Python and torch primitives and of the collaborators,
    as opposed to the five [raise] statements of [__call__]. *)
Definition low_level (e : exn) : Prop :=
  match e with
  | PyIndexError | PyUnpackError _ _ | PyKeyError _ | TorchError _
  | External _ _ => True
  | _ => False
  end.

(** An element in the closed interval [[0, 1]] *)
Definition in_unit_interval (v : spec_float) : Prop :=
  SFleb f32_zero v = true /\ SFleb v f32_one = true.

(** ** A small concrete environment

    Used to run the pipeline on concrete inputs.  The runtime fills every
    output buffer with the first element of its first input, the scheduler
    has two timesteps and subtracts the model output from the sample. *)

Definition f32_sub := SFsub 24 128.

Definition toy_binop (f : spec_float -> spec_float -> spec_float) (x y : tensor)
  : tensor :=
  if shape_eqb (shape x) (shape y)
  then {| shape := shape x;
          data := map (fun p => f (fst p) (snd p)) (combine (data x) (data y)) |}
  else match data y with
       | [c] => tmap (fun v => f v c) x
       | _ => x
       end.

Definition first_value (inputs : run_inputs) : spec_float :=
  match inputs with
  | InputDict ((_, FloatT t) :: _) => hd f32_zero (data t)
  | InputList (FloatT t :: _) => hd f32_zero (data t)
  | _ => f32_zero
  end.

Definition scalar_tensor (x : spec_float) : tensor := {| shape := []; data := [x] |}.

Definition toy_env : Env unit := {|
  tokenizer_model_max_length := fun _ => 2;
  tokenizer_call := fun text max_length w =>
    match text with
    | VStr _ _ =>
        (Returned {| ishape := [1; max_length];
                     idata := repeat 0 (Z.to_nat max_length) |}, w)
    | VList _ items =>
        (Returned {| ishape := [Z.of_nat (List.length items); max_length];
                     idata := repeat 0 (List.length items * Z.to_nat max_length) |}, w)
    | _ => (Raised ValueError "text input must be of type str or list", w)
    end;
  Model := fun _ _ w => (Returned tt, w);
  set_many_constants_with_tensors := fun _ _ w => (Returned tt, w);
  fold_constants := fun _ w => (Returned tt, w);
  get_output_name_to_index_map_len := fun m _ =>
    match m with controlnet_ait_exe => 2%nat | _ => 1%nat end;
  get_output_maximum_shape := fun m _ _ =>
    match m with
    | controlnet_ait_exe => [2; 1; 1; 1]
    | clip_ait_exe => [1; 2; 1]
    | unet_ait_exe => [2; 1; 1; 4]
    | vae_ait_exe => [2; 8; 8; 3]
    end;
  run_with_tensors := fun _ inputs ys w =>
    (Returned (map (fun sh => repeat (first_value inputs) (Z.to_nat (numel sh))) ys), w);
  set_timesteps_accepts_offset := fun _ => false;
  step_accepts_eta := fun _ => false;
  step_accepts_generator := fun _ => true;
  set_timesteps := fun _ _ w => (Returned tt, w);
  timesteps := fun _ => [scalar_tensor f32_one; scalar_tensor f32_zero];
  init_noise_sigma := fun _ => scalar_tensor f32_one;
  scale_model_input := fun sample _ w => (Returned sample, w);
  step := fun model_output _ sample _ w =>
    (Returned (toy_binop f32_sub sample model_output), w);
  randn_data := fun sh _ w => (Returned (repeat f32_zero (Z.to_nat (numel sh))), w);
  tensor_add := toy_binop f32_add;
  tensor_sub := toy_binop f32_sub;
  tensor_mul := toy_binop f32_mul;
  numpy_to_pil := fun image w =>
    (Returned [PilImage (nth 2 (shape image) 0) (nth 1 (shape image) 0) []], w);
  torch_load := fun _ w => (Returned (CkptTensors []), w);
  from_pretrained := fun _ w =>
    (Returned [("controlnet_cond_embedding.conv_in.weight"%string,
                {| shape := [1; 1; 1; 1]; data := [f32_one] |})], w);
  convert_ldm_unet_checkpoint := fun p => Returned p;
  convert_ldm_vae_checkpoint := fun p => Returned p;
  map_clip_state_dict := fun p => Returned p;
  map_unet_state_dict := fun p => Returned p;
  map_vae := fun p => Returned p
|}.

Definition toy_state : state unit := {| world := tt; batch := 1; trace := [] |}.

(** [7.5], the default [guidance_scale] *)
Definition f64_7_5 : spec_float := S754_finite false 8444249301319680 (-50).

(** [pipe("a", cond, height=8, width=8, num_inference_steps=2,
    output_type=None)] *)
Definition toy_args : call_args := {|
  prompt := VStr None "a";
  control_cond := {| shape := [1; 3; 8; 8]; data := repeat f32_zero 192 |};
  height := 8;
  width := 8;
  num_inference_steps := 2;
  guidance_scale := f64_7_5;
  negative_prompt := VNone;
  eta := S754_zero false;
  generator_ := None;
  latents := None;
  output_type := None;
  return_dict := true
|}.

(** * Specifications *)

(** ** Judgements on a computation *)

(** [maintains P E c]: [c] leaves [self.batch] alone, every call it makes
    into a collaborator satisfies [P], and every exception it raises
    satisfies [E]. *)
Definition maintains {W A} (P : event -> Prop) (E : exn -> Prop) (c : M W A)
  : Prop :=
  forall s,
    batch (snd (c s)) = batch s /\
    (exists evs, trace (snd (c s)) = trace s ++ evs /\ Forall P evs) /\
    (forall e, fst (c s) = Raise e -> E e).

(** A primitive fails with a low-level exception only. *)
Definition raises_low {A} (r : res A) : Prop :=
  forall e, r = Raise e -> low_level e.

(** ** Classes of calls *)

(** A call of [run_with_tensors] on module [m] *)
Definition is_run (m : ait_module) (e : event) : Prop :=
  match e with
  | EvRunWithTensors m' _ _ _ => m' = m
  | _ => False
  end.

(** A call of [scheduler.step] *)
Definition is_step (e : event) : Prop :=
  match e with
  | EvStep _ _ _ _ _ => True
  | _ => False
  end.

(** The calls [__call__] makes before the loop *)
Definition prepare_event (e : event) : Prop :=
  match e with
  | EvTokenizer _ _ _ | EvRandn _ _ _ | EvSetTimesteps _ _ _ => True
  | EvRunWithTensors m _ _ _ => m = clip_ait_exe
  | _ => False
  end.

(** The calls of the loop *)
Definition loop_event (e : event) : Prop :=
  match e with
  | EvScaleModelInput _ _ _ | EvStep _ _ _ _ _ => True
  | EvRunWithTensors m _ _ _ => m = controlnet_ait_exe \/ m = unet_ait_exe
  | _ => False
  end.

(** The calls after the loop *)
Definition decode_event (e : event) : Prop :=
  match e with
  | EvNumpyToPil _ _ => True
  | EvRunWithTensors m _ _ _ => m = vae_ait_exe
  | _ => False
  end.

(** The calls [__call__] can make *)
Definition call_event (e : event) : Prop :=
  prepare_event e \/ loop_event e \/ decode_event e.

(** [c] changes neither the world, nor [self.batch], nor the trace. *)
Definition reads_only {W A} (c : M W A) : Prop := forall s, snd (c s) = s.

(** ** The guidance of a step *)

(** The last call of [evs], or [prev] when there is none *)
Definition last_or (prev : option event) (evs : list event) : option event :=
  match evs with
  | [] => prev
  | e :: r => Some (last r e)
  end.

(** A call of [scheduler.step] comes right after a run of the UNet module
    that returned; with [noise_pred] what [unet_inference] returns for the
    outputs of that run, the model output passed to [step] is
    [noise_pred_uncond + guidance_scale * (noise_pred_text -
    noise_pred_uncond)] on the halves of [noise_pred] when
    [guidance_scale > 1.0], and [noise_pred] itself when
    [guidance_scale <= 1.0]. *)
Definition guidance_ok {W} (env : Env W) (a : call_args)
  (prev : option event) (e : event) : Prop :=
  match e with
  | EvStep model_output _ _ _ _ =>
      exists inputs buffers ys noise_pred,
        prev = Some (EvRunWithTensors unet_ait_exe inputs buffers (Ok ys)) /\
        nchw_output ys = Ok noise_pred /\
        (py_gt (guidance_scale a) f64_one = true ->
         exists noise_pred_uncond noise_pred_text,
           halves noise_pred noise_pred_uncond noise_pred_text /\
           model_output =
             tensor_add env noise_pred_uncond
               (smul (guidance_scale a)
                  (tensor_sub env noise_pred_text noise_pred_uncond))) /\
        (py_le (guidance_scale a) f64_one = true -> model_output = noise_pred)
  | _ => True
  end.

(** ** Classes of exceptions *)

(** The two exceptions of the negative-prompt checks *)
Definition negative_prompt_error (e : exn) : Prop :=
  match e with
  | NegativePromptType _ _ | NegativePromptBatch _ _ _ _ => True
  | _ => False
  end.

(** What [__call__] can raise on the arguments [a]: an exception of a
    primitive or a collaborator, or one of its own five, each under the
    condition its guard tests. *)
Definition call_error (a : call_args) (e : exn) : Prop :=
  low_level e \/
  (e = BadPromptType (type_of (prompt a)) /\
   isinstance_str (prompt a) = false /\ isinstance_list (prompt a) = false) \/
  (e = BadHeightWidth (height a) (width a) /\
   ~ (height a mod 8 = 0 /\ width a mod 8 = 0)) \/
  (do_classifier_free_guidance a = true /\ negative_prompt_error e) \/
  (exists l b,
      batch_size_of (prompt a) = Ok b /\
      latents a = Some l /\ shape l <> latents_shape a b /\
      e = UnexpectedLatentsShape (shape l) (latents_shape a b)).

(** The same judgement without the clause on [self.batch]. *)
Definition emits {W A} (P : event -> Prop) (E : exn -> Prop) (c : M W A) : Prop :=
  forall s,
    (exists evs, trace (snd (c s)) = trace s ++ evs /\ Forall P evs) /\
    (forall e, fst (c s) = Raise e -> E e).

(** The exceptions of the embedding stage: those of the negative-prompt
    checks only under guidance. *)
Definition text_error (a : call_args) (e : exn) : Prop :=
  low_level e \/ (do_classifier_free_guidance a = true /\ negative_prompt_error e).

(** The exceptions of the latents stage *)
Definition latents_error (a : call_args) (b : Z) (e : exn) : Prop :=
  low_level e \/
  exists l, latents a = Some l /\ shape l <> latents_shape a b /\
            e = UnexpectedLatentsShape (shape l) (latents_shape a b).

(** The exceptions between [self.batch = batch_size] and the loop *)
Definition inputs_error (a : call_args) (b : Z) (e : exn) : Prop :=
  text_error a e \/ latents_error a b e.

(** ** States and results *)

(** [s] with [self.batch = b] *)
Definition with_batch {W} (b : Z) (s : state W) : state W :=
  {| world := world s; batch := b; trace := trace s |}.

(** An element of the image: in [[0, 1]], or NaN. *)
Definition valid_pixel (v : spec_float) : Prop :=
  is_nan v = true \/ in_unit_interval v.

(** The array [postprocess] hands over: to [numpy_to_pil] when the output
    type is ["pil"], to the caller otherwise. *)
Definition generated {W} (a : call_args) (image : tensor) (s : state W)
  (r : call_result) (s' : state W) : Prop :=
  if is_pil (output_type a)
  then exists pl,
         images_of r = PilImages pl /\
         trace s' = trace s ++ [EvNumpyToPil image (Ok pl)]
  else images_of r = NumpyArray image /\ trace s' = trace s.

(** ** The order of the calls on a module *)

(** What has been done to a module so far: nothing, constants set, constants
    folded. *)
Inductive phase := Unbound | Bound | Folded.

Definition module_eqb (m m' : ait_module) : bool :=
  match m, m' with
  | controlnet_ait_exe, controlnet_ait_exe
  | clip_ait_exe, clip_ait_exe
  | unet_ait_exe, unet_ait_exe
  | vae_ait_exe, vae_ait_exe => true
  | _, _ => false
  end.

(** The phase of module [m] after one more call. *)
Definition advance (m : ait_module) (ph : phase) (e : event) : phase :=
  match e with
  | EvSetManyConstants m' _ (Ok _) =>
      if module_eqb m' m then match ph with Unbound => Bound | _ => ph end else ph
  | EvFoldConstants m' (Ok _) =>
      if module_eqb m' m then match ph with Bound => Folded | _ => ph end else ph
  | _ => ph
  end.

(** The calls allowed on module [m] in a phase: [fold_constants] once
    [set_many_constants_with_tensors] has returned, [run_with_tensors] once
    [fold_constants] has returned. *)
Definition permitted (m : ait_module) (ph : phase) (e : event) : Prop :=
  match e with
  | EvFoldConstants m' _ => m' = m -> ph <> Unbound
  | EvRunWithTensors m' _ _ _ => m' = m -> ph = Folded
  | _ => True
  end.

(** Every call of [evs] is allowed in the phase the calls before it have
    left [m] in. *)
Fixpoint ordered (m : ait_module) (ph : phase) (evs : list event) : Prop :=
  match evs with
  | [] => True
  | e :: r => permitted m ph e /\ ordered m (advance m ph e) r
  end.

(** The phase of [m] after the calls [evs] *)
Definition phase_after (m : ait_module) (ph : phase) (evs : list event) : phase :=
  fold_left (advance m) evs ph.

(** A call that neither changes the phase of [m] nor depends on it *)
Definition neutral (m : ait_module) (e : event) : Prop :=
  match e with
  | EvSetManyConstants m' _ _ | EvFoldConstants m' _
  | EvRunWithTensors m' _ _ _ => m' <> m
  | _ => True
  end.

(** The calls [__init__] makes *)
Definition init_event (e : event) : Prop :=
  match e with
  | EvModel _ _ _ | EvSetManyConstants _ _ _ | EvFoldConstants _ _
  | EvTorchLoad _ _ | EvFromPretrained _ _ => True
  | _ => False
  end.

(** [typed m ph ph' c]: started with [m] in phase [ph], [c] only makes
    allowed calls, and leaves [m] in phase [ph'] when it returns. *)
Definition typed {W A} (m : ait_module) (ph ph' : phase) (c : M W A) : Prop :=
  forall s,
    exists evs,
      trace (snd (c s)) = trace s ++ evs /\
      ordered m ph evs /\
      (forall x, fst (c s) = Ok x -> phase_after m ph evs = ph').

(** Loading a module, a checkpoint or pretrained parameters *)
Definition hub_event (e : event) : Prop :=
  match e with
  | EvModel _ _ _ | EvTorchLoad _ _ | EvFromPretrained _ _ => True
  | _ => False
  end.

(** [set_many_constants_with_tensors] and then [fold_constants] have
    returned on [m] in the course of [evs]. *)
Definition bound_and_folded (m : ait_module) (evs : list event) : Prop :=
  exists p e1 e2 e3,
    evs = e1 ++ EvSetManyConstants m p (Ok tt)
             :: e2 ++ EvFoldConstants m (Ok tt) :: e3.

(** ** Arguments of the concrete runs *)

Definition with_height (h : Z) (a : call_args) : call_args :=
  {| prompt := prompt a;
     control_cond := control_cond a;
     height := h;
     width := width a;
     num_inference_steps := num_inference_steps a;
     guidance_scale := guidance_scale a;
     negative_prompt := negative_prompt a;
     eta := eta a;
     generator_ := generator_ a;
     latents := latents a;
     output_type := output_type a;
     return_dict := return_dict a |}.

Definition with_guidance_scale (g : spec_float) (a : call_args) : call_args :=
  {| prompt := prompt a;
     control_cond := control_cond a;
     height := height a;
     width := width a;
     num_inference_steps := num_inference_steps a;
     guidance_scale := g;
     negative_prompt := negative_prompt a;
     eta := eta a;
     generator_ := generator_ a;
     latents := latents a;
     output_type := output_type a;
     return_dict := return_dict a |}.

Definition with_latents (l : option tensor) (a : call_args) : call_args :=
  {| prompt := prompt a;
     control_cond := control_cond a;
     height := height a;
     width := width a;
     num_inference_steps := num_inference_steps a;
     guidance_scale := guidance_scale a;
     negative_prompt := negative_prompt a;
     eta := eta a;
     generator_ := generator_ a;
     latents := l;
     output_type := output_type a;
     return_dict := return_dict a |}.

(** [pipe("a", cond, height=4, width=8, ...)] *)
Definition toy_args_height_4 : call_args := with_height 4 toy_args.

(** [pipe("a", cond, negative_prompt=["b"], ...)], with the default
    [guidance_scale=7.5] *)
Definition toy_args_negative_list : call_args :=
  with_negative_prompt (VList None ["b"%string]) toy_args.

(** [pipe("a", cond, guidance_scale=1.0, negative_prompt=["b"], ...)] *)
Definition toy_args_no_guidance : call_args :=
  with_guidance_scale f64_one toy_args_negative_list.

(** [pipe("a", cond, negative_prompt=["b"], latents=torch.zeros(9), ...)] *)
Definition toy_args_bad_latents : call_args :=
  with_latents (Some {| shape := [9]; data := repeat f32_zero 9 |})
    toy_args_negative_list.

(** [pipe("a", cond, latents=torch.full((1, 4, 1, 1), float("nan")), ...)] *)
Definition toy_args_nan_latents : call_args :=
  with_latents (Some {| shape := [1; 4; 1; 1]; data := repeat S754_nan 4 |})
    toy_args.

(** [is_step] as a test *)
Definition is_stepb (e : event) : bool :=
  match e with
  | EvStep _ _ _ _ _ => true
  | _ => false
  end.

(** A test for the calls of [run_with_tensors] *)
Definition is_runb (e : event) : bool :=
  match e with
  | EvRunWithTensors _ _ _ _ => true
  | _ => false
  end.

(** [pipe = StableDiffusionAITPipeline("hub", None, "tmp/")], then
    [pipe("a", cond, ...)] and [pipe.vae_inference(torch.zeros(1, 4, 1, 1),
    8, 8)] *)
Definition toy_session : M unit unit :=
  session toy_env "hub" None "tmp/"
    [ (fun w => w, Call toy_args);
      (fun w => w,
       VaeInference {| shape := [1; 4; 1; 1]; data := repeat f32_zero 4 |} 8 8) ].

(** * Properties *)

(** ** The monad *)

Lemma bind_run {W A B} (c : M W A) (k : A -> M W B) s :
  bind c k s =
  match c s with
  | (Ok x, s') => k x s'
  | (Raise e, s') => (Raise e, s')
  end.
Proof. reflexivity. Qed.

Lemma bind_inv {W A B} (c : M W A) (k : A -> M W B) s r s' :
  bind c k s = (r, s') ->
  (exists e, c s = (Raise e, s') /\ r = Raise e) \/
  (exists x s1, c s = (Ok x, s1) /\ k x s1 = (r, s')).
Proof.
  rewrite bind_run. destruct (c s) as [[x|e] s1]; intros H.
  - right. eauto.
  - left. inversion H; subst. eauto.
Qed.

Lemma bind_ok_inv {W A B} (c : M W A) (k : A -> M W B) s y s' :
  bind c k s = (Ok y, s') ->
  exists x s1, c s = (Ok x, s1) /\ k x s1 = (Ok y, s').
Proof.
  intros H. apply bind_inv in H. destruct H as [(e & _ & H) | H]; [discriminate | exact H].
Qed.

Lemma bind_ok {W A B} (c : M W A) (k : A -> M W B) s x s1 :
  c s = (Ok x, s1) -> bind c k s = k x s1.
Proof. intros H. rewrite bind_run, H. reflexivity. Qed.

Lemma bind_raise {W A B} (c : M W A) (k : A -> M W B) s e s1 :
  c s = (Raise e, s1) -> bind c k s = (Raise e, s1).
Proof. intros H. rewrite bind_run, H. reflexivity. Qed.

Lemma res_bind_ok_inv {A B} (r : res A) (k : A -> res B) y :
  res_bind r k = Ok y -> exists x, r = Ok x /\ k x = Ok y.
Proof. destruct r; simpl; intros H; [eauto | discriminate]. Qed.

(** ** Invariants of a computation *)

Lemma maintains_ret {W A} P E (x : A) : maintains P E (ret (W := W) x).
Proof.
  intros s. simpl. repeat split; [exists []; rewrite app_nil_r; auto | discriminate].
Qed.

Lemma maintains_lift {W A} P (E : exn -> Prop) (r : res A) :
  (forall e, r = Raise e -> E e) -> maintains P E (lift (W := W) r).
Proof.
  intros H s. simpl. repeat split; [exists []; rewrite app_nil_r; auto | auto].
Qed.

Lemma maintains_raise {W A} P (E : exn -> Prop) e :
  E e -> maintains P E (raise (W := W) (A := A) e).
Proof.
  intros H s. simpl. repeat split; [exists []; rewrite app_nil_r; auto |].
  intros e' He. inversion He; subst; exact H.
Qed.

Lemma maintains_read {W A} P E (f : W -> A) : maintains P E (read f).
Proof.
  intros s. simpl. repeat split; [exists []; rewrite app_nil_r; auto | discriminate].
Qed.

Lemma maintains_get_batch {W} P E : maintains P E (get_batch (W := W)).
Proof.
  intros s. simpl. repeat split; [exists []; rewrite app_nil_r; auto | discriminate].
Qed.

Lemma maintains_call {W A} (P : event -> Prop) (E : exn -> Prop)
  (f : W -> outcome A * W) ev :
  (forall r, P (ev r)) -> (forall c m, E (External c m)) ->
  maintains P E (call f ev).
Proof.
  intros HP HE s. unfold call. destruct (f (world s)) as [o w]. simpl.
  repeat split.
  - exists [ev (to_res o)]. split; [reflexivity | constructor; auto].
  - intros e He. destruct o; simpl in He; inversion He; subst. apply HE.
Qed.

Lemma maintains_bind {W A B} P E (c : M W A) (k : A -> M W B) :
  maintains P E c -> (forall x, maintains P E (k x)) ->
  maintains P E (bind c k).
Proof.
  intros Hc Hk s. rewrite bind_run.
  destruct (Hc s) as (Hb & (evs & Ht & Hp) & He).
  destruct (c s) as [[x|e] s1]; simpl in *.
  - destruct (Hk x s1) as (Hb' & (evs' & Ht' & Hp') & He').
    repeat split.
    + congruence.
    + exists (evs ++ evs'). rewrite Ht', Ht, app_assoc. split; [reflexivity|].
      apply Forall_app; auto.
    + exact He'.
  - repeat split; [exact Hb | exists evs; auto |].
    intros e' H. inversion H; subst. apply He. reflexivity.
Qed.

Lemma maintains_mapM {W A B} P E (f : A -> M W B) l :
  (forall x, maintains P E (f x)) -> maintains P E (mapM f l).
Proof.
  intros Hf. induction l as [|x l IH]; simpl.
  - apply maintains_ret.
  - apply maintains_bind; [apply Hf | intros y].
    apply maintains_bind; [exact IH | intros ys; apply maintains_ret].
Qed.

Lemma maintains_weaken {W A} (P P' : event -> Prop) (E E' : exn -> Prop)
  (c : M W A) :
  (forall e, P e -> P' e) -> (forall e, E e -> E' e) ->
  maintains P E c -> maintains P' E' c.
Proof.
  intros HP HE Hc s. destruct (Hc s) as (Hb & (evs & Ht & Hp) & He).
  repeat split; auto.
  exists evs. split; [exact Ht | eapply Forall_impl; eauto].
Qed.

Lemma maintains_try {W A} P E E' (c : M W A) :
  maintains P E c -> maintains P E' (try c).
Proof.
  intros Hc s. destruct (Hc s) as (Hb & Ht & _). unfold try. simpl.
  repeat split; auto. discriminate.
Qed.

(** ** Exceptions of the primitives *)

Lemma raises_low_ok {A} (x : A) : raises_low (Ok x).
Proof. intros e H; discriminate. Qed.

Lemma raises_low_bind {A B} (r : res A) (k : A -> res B) :
  raises_low r -> (forall x, raises_low (k x)) -> raises_low (res_bind r k).
Proof.
  intros Hr Hk. destruct r as [x|e]; simpl; [apply Hk |].
  intros e' H. inversion H; subst. apply Hr. reflexivity.
Qed.

Lemma raises_low_to_res {A} (o : outcome A) : raises_low (to_res o).
Proof. destruct o; intros e H; inversion H; subst; exact I. Qed.

Ltac low_cases :=
  repeat match goal with
         | |- raises_low (Ok _) => apply raises_low_ok
         | |- raises_low (res_bind _ _) => apply raises_low_bind; [|intros ?]
         | |- raises_low (if ?c then _ else _) => destruct c
         | |- raises_low (match ?x with _ => _ end) => destruct x
         | |- raises_low (Raise _) =>
             let e := fresh in let H := fresh in
             intros e H; inversion H; subst; exact I
         end.

Lemma raises_low_shape_first sh : raises_low (shape_first sh).
Proof. unfold shape_first. low_cases. Qed.

Lemma raises_low_shape_last sh : raises_low (shape_last sh).
Proof. unfold shape_last. low_cases. Qed.

Lemma raises_low_list_first {A} (l : list A) : raises_low (list_first l).
Proof. unfold list_first. low_cases. Qed.

Lemma raises_low_list_last {A} (l : list A) : raises_low (list_last l).
Proof. unfold list_last. low_cases. Qed.

Lemma raises_low_list_set l k v : raises_low (list_set l k v).
Proof.
  revert k. induction l as [|d l IH]; intros k; simpl; [low_cases|].
  destruct k; [low_cases|].
  specialize (IH k). destruct (list_set l k v); [low_cases|].
  intros e' H. inversion H; subst. apply IH. reflexivity.
Qed.

Lemma raises_low_torch_empty sh : raises_low (torch_empty sh).
Proof. unfold torch_empty. low_cases. Qed.

Lemma raises_low_torch_cat x y : raises_low (torch_cat x y).
Proof. unfold torch_cat. low_cases. Qed.

Lemma raises_low_torch_chunk2 t : raises_low (torch_chunk2 t).
Proof. unfold torch_chunk2. low_cases. Qed.

Lemma raises_low_unpack2 l : raises_low (unpack2 l).
Proof. unfold unpack2. low_cases. Qed.

Lemma raises_low_permute dims t : raises_low (permute dims t).
Proof. unfold permute. low_cases. Qed.

Lemma raises_low_expand n t : raises_low (expand n t).
Proof. unfold expand. low_cases. Qed.

Lemma raises_low_position_ids n bs : raises_low (position_ids n bs).
Proof. unfold position_ids. low_cases. Qed.

Lemma raises_low_set_leading b d1 d2 sh : raises_low (set_leading b d1 d2 sh).
Proof.
  unfold set_leading.
  repeat (apply raises_low_bind; [apply raises_low_list_set | intros ?]).
  apply raises_low_list_set.
Qed.

Create HintDb low.

#[local] Hint Resolve raises_low_ok raises_low_to_res raises_low_shape_first
  raises_low_shape_last raises_low_list_first raises_low_list_last
  raises_low_list_set raises_low_torch_empty raises_low_torch_cat
  raises_low_torch_chunk2 raises_low_unpack2 raises_low_permute
  raises_low_expand raises_low_position_ids raises_low_set_leading : low.

Ltac low_auto :=
  repeat (apply raises_low_bind; [auto with low | intros ?]); auto with low.

Lemma raises_low_controlnet_inputs x t te c :
  raises_low (controlnet_inputs x t te c).
Proof. unfold controlnet_inputs. low_auto. Qed.

Lemma raises_low_unet_inputs b x t te d m : raises_low (unet_inputs b x t te d m).
Proof. unfold unet_inputs. low_auto. Qed.

Lemma raises_low_clip_inputs i n : raises_low (clip_inputs i n).
Proof. unfold clip_inputs. low_auto. Qed.

Lemma raises_low_vae_inputs x : raises_low (vae_inputs x).
Proof. unfold vae_inputs. low_auto. Qed.

Lemma raises_low_controlnet_output ys : raises_low (controlnet_output ys).
Proof. unfold controlnet_output. low_auto. Qed.

Lemma raises_low_nchw_output ys : raises_low (nchw_output ys).
Proof. unfold nchw_output. low_auto. Qed.

#[local] Hint Resolve raises_low_controlnet_inputs raises_low_unet_inputs
  raises_low_clip_inputs raises_low_vae_inputs raises_low_controlnet_output
  raises_low_nchw_output : low.

(** ** The calls made by each part of the pipeline *)

Lemma maintains_lift_low {W A} P (r : res A) :
  raises_low r -> maintains P low_level (lift (W := W) r).
Proof. intros H. apply maintains_lift. exact H. Qed.

Ltac maintains_step :=
  first
    [ apply maintains_bind; [| intros ?]
    | apply maintains_ret
    | apply maintains_read
    | apply maintains_get_batch
    | apply maintains_lift_low; solve [auto with low]
    | apply maintains_call; [intros ?; simpl; auto | intros ? ?; exact I]
    | apply maintains_mapM; intros ?
    | match goal with
      | |- maintains _ _ (if ?c then _ else _) => destruct c
      | |- maintains _ _ (match ?x with _ => _ end) => destruct x
      end ].

Section Maintains.

Context {W : Type} (env : Env W).

Lemma maintains_alloc_outputs P m adjust :
  (forall sh, raises_low (adjust sh)) ->
  maintains P low_level (alloc_outputs env m adjust).
Proof.
  intros H. unfold alloc_outputs. repeat maintains_step.
Qed.

Lemma maintains_run m inputs ys :
  maintains (is_run m) low_level (run env m inputs ys).
Proof. unfold run. repeat maintains_step. Qed.

Lemma maintains_controlnet_inference x t te c :
  maintains (is_run controlnet_ait_exe) low_level
    (controlnet_inference env x t te c).
Proof.
  unfold controlnet_inference.
  apply maintains_bind; [repeat maintains_step | intros ?].
  apply maintains_bind; [apply maintains_alloc_outputs; auto with low | intros ?].
  apply maintains_bind; [apply maintains_run | intros ?].
  repeat maintains_step.
Qed.

Lemma maintains_unet_inference x t te h w d m :
  maintains (is_run unet_ait_exe) low_level (unet_inference env x t te h w d m).
Proof.
  unfold unet_inference.
  apply maintains_bind; [repeat maintains_step | intros ?].
  apply maintains_bind; [repeat maintains_step | intros ?].
  apply maintains_bind; [apply maintains_alloc_outputs; auto with low | intros ?].
  apply maintains_bind; [apply maintains_run | intros ?].
  repeat maintains_step.
Qed.

Lemma maintains_clip_inference i n :
  maintains (is_run clip_ait_exe) low_level (clip_inference env i n).
Proof.
  unfold clip_inference.
  apply maintains_bind; [repeat maintains_step | intros ?].
  apply maintains_bind; [repeat maintains_step | intros ?].
  apply maintains_bind; [apply maintains_alloc_outputs; auto with low | intros ?].
  apply maintains_bind; [apply maintains_run | intros ?].
  repeat maintains_step.
Qed.

Lemma maintains_vae_inference x h w :
  maintains (is_run vae_ait_exe) low_level (vae_inference env x h w).
Proof.
  unfold vae_inference.
  apply maintains_bind; [repeat maintains_step | intros ?].
  apply maintains_bind; [repeat maintains_step | intros ?].
  apply maintains_bind; [apply maintains_alloc_outputs; auto with low | intros ?].
  apply maintains_bind; [apply maintains_run | intros ?].
  repeat maintains_step.
Qed.

End Maintains.

Lemma shape_eqb_false x y : shape_eqb x y = false -> x <> y.
Proof. unfold shape_eqb. destruct (list_eq_dec Z.eq_dec x y); [discriminate | auto]. Qed.

Lemma shape_eqb_true x y : shape_eqb x y = true -> x = y.
Proof. unfold shape_eqb. destruct (list_eq_dec Z.eq_dec x y); [auto | discriminate]. Qed.

(** ** Computations that only read *)

Lemma reads_only_ret {W A} (x : A) : reads_only (ret (W := W) x).
Proof. intros s; reflexivity. Qed.

Lemma reads_only_lift {W A} (r : res A) : reads_only (lift (W := W) r).
Proof. intros s; reflexivity. Qed.

Lemma reads_only_read {W A} (f : W -> A) : reads_only (read f).
Proof. intros s; reflexivity. Qed.

Lemma reads_only_bind {W A B} (c : M W A) (k : A -> M W B) :
  reads_only c -> (forall x, reads_only (k x)) -> reads_only (bind c k).
Proof.
  intros Hc Hk s. rewrite bind_run. specialize (Hc s).
  destruct (c s) as [[x|e] s1]; simpl in *; subst; [apply Hk | reflexivity].
Qed.

Lemma reads_only_mapM {W A B} (f : A -> M W B) l :
  (forall x, reads_only (f x)) -> reads_only (mapM f l).
Proof.
  intros Hf. induction l as [|x l IH]; simpl; [apply reads_only_ret|].
  apply reads_only_bind; [apply Hf | intros y].
  apply reads_only_bind; [exact IH | intros ys; apply reads_only_ret].
Qed.

(** What [mapM] returns satisfies what each element's result does. *)
Lemma mapM_Forall {W A B} (Q : B -> Prop) (f : A -> M W B) l :
  (forall x s y s', f x s = (Ok y, s') -> Q y) ->
  forall s ys s', mapM f l s = (Ok ys, s') -> Forall Q ys.
Proof.
  intros Hf. induction l as [|x l IH]; simpl; intros s ys s' H.
  - inversion H; subst. constructor.
  - apply bind_ok_inv in H. destruct H as (y & s1 & Hy & H).
    apply bind_ok_inv in H. destruct H as (ys' & s2 & Hys & H).
    inversion H; subst. constructor; eauto.
Qed.

Section Alloc.

Context {W : Type} (env : Env W).

Lemma reads_only_alloc_outputs m adjust :
  reads_only (alloc_outputs env m adjust).
Proof.
  unfold alloc_outputs.
  apply reads_only_bind; [apply reads_only_read | intros n].
  apply reads_only_mapM. intros i.
  apply reads_only_bind; [apply reads_only_read | intros sh].
  apply reads_only_bind; [apply reads_only_lift | intros sh'].
  apply reads_only_lift.
Qed.

Lemma alloc_outputs_Forall (Q : list Z -> Prop) m adjust :
  (forall sh sh', adjust sh = Ok sh' -> Q sh') ->
  forall s ys s', alloc_outputs env m adjust s = (Ok ys, s') -> Forall Q ys.
Proof.
  intros Hadj s ys s' H. unfold alloc_outputs in H.
  apply bind_ok_inv in H. destruct H as (n & s1 & _ & H).
  revert H. apply mapM_Forall. clear s ys s' s1. intros i s y s' H.
  apply bind_ok_inv in H. destruct H as (sh & s1 & _ & H).
  apply bind_ok_inv in H. destruct H as (sh' & s2 & Hsh & H).
  unfold lift in Hsh, H.
  assert (Hsh' : adjust sh = Ok sh') by congruence.
  assert (Hy : torch_empty sh' = Ok y) by congruence.
  unfold torch_empty in Hy.
  destruct (forallb (fun d => 0 <=? d) sh'); inversion Hy; subst.
  eapply Hadj; eauto.
Qed.

End Alloc.

Lemma list_set_0 sh v sh' :
  list_set sh 0 v = Ok sh' -> exists rest, sh' = v :: rest.
Proof. destruct sh; simpl; intros H; inversion H; eauto. Qed.

Lemma list_set_S_head d sh k v sh' :
  list_set (d :: sh) (S k) v = Ok sh' -> exists rest, sh' = d :: rest.
Proof.
  simpl. destruct (list_set sh k v); intros H; inversion H; eauto.
Qed.

Lemma set_leading_head b d1 d2 sh sh' :
  set_leading b d1 d2 sh = Ok sh' -> exists rest, sh' = (b * 2) :: rest.
Proof.
  unfold set_leading. intros H.
  apply res_bind_ok_inv in H. destruct H as (sh1 & H1 & H).
  apply res_bind_ok_inv in H. destruct H as (sh2 & H2 & H3).
  apply list_set_0 in H1. destruct H1 as (r1 & ->).
  apply list_set_S_head in H2. destruct H2 as (r2 & ->).
  apply list_set_S_head in H3. exact H3.
Qed.

Lemma map_snd_enumerate {A} (l : list A) : map snd (enumerate l) = l.
Proof.
  unfold enumerate. generalize 0%nat.
  induction l as [|x l IH]; intros n; simpl; [reflexivity | now rewrite IH].
Qed.

Lemma map_shape_filled ys contents : map shape (filled ys contents) = ys.
Proof.
  unfold filled. rewrite map_map. simpl.
  change (map (fun p : nat * list Z => snd p) (enumerate ys)) with (map snd (enumerate ys)).
  apply map_snd_enumerate.
Qed.

(** ** One run of a compiled module *)

Section MethodSpecs.

Context {W : Type} (env : Env W).

(** The common tail of the four inference methods: allocate, run, read the
    outputs.  Either nothing is called and an exception is raised, or the
    module is run once, on buffers allocated by [adjust]. *)
Lemma infer_spec {A} m inputs adjust (post : list tensor -> res A)
  (Q : list Z -> Prop) s :
  (forall sh sh', adjust sh = Ok sh' -> Q sh') ->
  exists r s',
    (ys <- alloc_outputs env m adjust ;;
     ys <- run env m inputs ys ;;
     lift (post ys)) s = (r, s') /\
    batch s' = batch s /\
    ((trace s' = trace s /\ exists e, r = Raise e) \/
     exists buffers out,
       Forall Q buffers /\ in_place buffers out /\
       trace s' = trace s ++ [EvRunWithTensors m inputs buffers out] /\
       r = res_bind out post).
Proof.
  intros HQ. rewrite bind_run.
  pose proof (reads_only_alloc_outputs env m adjust s) as Hs.
  pose proof (alloc_outputs_Forall env Q m adjust HQ s) as HF.
  destruct (alloc_outputs env m adjust s) as [[ys|e] s1]; simpl in Hs; subst s1.
  - specialize (HF ys s eq_refl).
    rewrite bind_run. unfold run, call.
    destruct (run_with_tensors env m inputs ys (world s)) as [o w].
    destruct o as [contents | c msg]; simpl.
    + eexists _, _. split; [reflexivity|]. split; [reflexivity|]. right.
      exists ys, (Ok (filled ys contents)). repeat split; auto.
      simpl. apply map_shape_filled.
    + eexists _, _. split; [reflexivity|]. split; [reflexivity|]. right.
      exists ys, (Raise (External c msg)). repeat split; auto.
  - eexists _, _. split; [reflexivity|]. split; [reflexivity|]. left.
    split; eauto.
Qed.

Lemma controlnet_inference_spec x t te c s :
  exists r s',
    controlnet_inference env x t te c s = (r, s') /\
    batch s' = batch s /\
    ((trace s' = trace s /\ exists e, r = Raise e) \/
     exists inputs buffers out,
       controlnet_inputs x t te c = Ok inputs /\
       in_place buffers out /\
       trace s' = trace s ++ [EvRunWithTensors controlnet_ait_exe inputs buffers out] /\
       r = res_bind out controlnet_output).
Proof.
  unfold controlnet_inference. rewrite bind_run. unfold lift at 1.
  destruct (controlnet_inputs x t te c) as [inputs|e].
  - destruct (infer_spec controlnet_ait_exe inputs (fun sh => Ok sh)
                controlnet_output (fun _ => True) s (fun _ _ _ => I))
      as (r & s' & Heq & Hb & H).
    exists r, s'. split; [exact Heq|]. split; [exact Hb|].
    destruct H as [H | (buffers & out & _ & Hin & Ht & Hr)]; [left; exact H|].
    right. exists inputs, buffers, out. auto.
  - eexists _, _. split; [reflexivity|]. split; [reflexivity|]. left. eauto.
Qed.

Lemma unet_inference_spec x t te h w d m s :
  exists r s',
    unet_inference env x t te h w d m s = (r, s') /\
    batch s' = batch s /\
    ((trace s' = trace s /\ exists e, r = Raise e) \/
     exists inputs buffers out,
       unet_inputs (batch s) x t te d m = Ok inputs /\
       Forall (fun sh => exists rest, sh = (batch s * 2) :: rest) buffers /\
       in_place buffers out /\
       trace s' = trace s ++ [EvRunWithTensors unet_ait_exe inputs buffers out] /\
       r = res_bind out nchw_output).
Proof.
  unfold unet_inference. rewrite bind_run. unfold get_batch at 1.
  rewrite bind_run. unfold lift at 1.
  destruct (unet_inputs (batch s) x t te d m) as [inputs|e].
  - destruct (infer_spec unet_ait_exe inputs
                (set_leading (batch s) (h / 8) (w / 8)) nchw_output
                (fun sh => exists rest, sh = (batch s * 2) :: rest) s
                (set_leading_head (batch s) (h / 8) (w / 8)))
      as (r & s' & Heq & Hb & H).
    exists r, s'. split; [exact Heq|]. split; [exact Hb|].
    destruct H as [H | (buffers & out & HF & Hin & Ht & Hr)]; [left; exact H|].
    right. exists inputs, buffers, out. auto.
  - eexists _, _. split; [reflexivity|]. split; [reflexivity|]. left. eauto.
Qed.

Lemma vae_inference_spec x h w s :
  exists r s',
    vae_inference env x h w s = (r, s') /\
    batch s' = batch s /\
    ((trace s' = trace s /\ exists e, r = Raise e) \/
     exists inputs buffers out,
       vae_inputs x = Ok inputs /\
       in_place buffers out /\
       trace s' = trace s ++ [EvRunWithTensors vae_ait_exe inputs buffers out] /\
       r = res_bind out nchw_output).
Proof.
  unfold vae_inference. rewrite bind_run. unfold lift at 1.
  destruct (vae_inputs x) as [inputs|e].
  - rewrite bind_run. unfold get_batch at 1.
    destruct (infer_spec vae_ait_exe inputs
                (set_leading (batch s) h w) nchw_output
                (fun _ => True) s (fun _ _ _ => I))
      as (r & s' & Heq & Hb & H).
    exists r, s'. split; [exact Heq|]. split; [exact Hb|].
    destruct H as [H | (buffers & out & HF & Hin & Ht & Hr)]; [left; exact H|].
    right. exists inputs, buffers, out. auto.
  - eexists _, _. split; [reflexivity|]. split; [reflexivity|]. left. eauto.
Qed.

End MethodSpecs.

(** ** The denoising loop *)

Section Loop.

Context {W : Type} (env : Env W) (a : call_args).
Context (te : tensor) (kw : step_kwargs).

Lemma controlnet_output_inv cn down mid :
  controlnet_output cn = Ok (down, mid) ->
  list_last cn = Ok mid /\ down = removelast cn.
Proof.
  unfold controlnet_output. destruct (list_last cn); simpl; intros H;
    inversion H; subst; auto.
Qed.

Lemma torch_cat_self l x :
  torch_cat l l = Ok x ->
  exists n rest,
    shape l = n :: rest /\
    x = {| shape := (2 * n) :: rest; data := data l ++ data l |}.
Proof.
  unfold torch_cat. destruct (shape_eqb (shape l) [0]) eqn:E.
  - apply shape_eqb_true in E. intros H. inversion H; subst.
    exists 0, []. rewrite E. auto.
  - destruct (shape l) as [|n rest] eqn:Hs; [discriminate|].
    destruct (shape_eqb rest rest) eqn:E'; [|discriminate].
    intros H. inversion H; subst. exists n, rest.
    replace (2 * n) with (n + n) by lia. auto.
Qed.

Lemma expand_latents_duplicated l li :
  expand_latents a l = Ok li -> duplicated a l li.
Proof.
  unfold expand_latents, duplicated, do_classifier_free_guidance.
  destruct (py_gt (guidance_scale a) f64_one).
  - apply torch_cat_self.
  - intros H. inversion H; reflexivity.
Qed.

(** One turn of the loop makes the calls [iteration] describes. *)
Lemma denoise_step_spec t l s :
  exists r s' evs,
    denoise_step env a te kw t l s = (r, s') /\
    batch s' = batch s /\
    trace s' = trace s ++ evs /\
    iteration env a (batch s) te kw t l evs r.
Proof.
  unfold denoise_step.
  rewrite bind_run. unfold lift at 1.
  destruct (expand_latents a l) as [li|e] eqn:Hli.
  2:{ exists (Raise e), s, []. rewrite app_nil_r. simpl. eauto 6. }
  rewrite bind_run. unfold call at 1.
  destruct (scale_model_input env li t (world s)) as [o w1].
  destruct o as [x|c m]; cbn [to_res].
  2:{ eexists _, _, [_]. split; [reflexivity|]. split; [reflexivity|].
      split; [reflexivity|]. simpl. eexists _, _. split; [|reflexivity].
      exists li. split; [apply expand_latents_duplicated, Hli | reflexivity]. }
  set (e1 := EvScaleModelInput li t (Ok x)).
  set (s1 := {| world := w1; batch := batch s; trace := trace s ++ [e1] |}).
  assert (Hs1 : scale_event a t l e1 (Ok x))
    by (exists li; split; [apply expand_latents_duplicated, Hli | reflexivity]).
  destruct (controlnet_inference_spec env x t te (control_cond a) s1)
    as (rc & s2 & Hc & Hb2 & Hcase).
  change (batch s2 = batch s) in Hb2.
  rewrite bind_run, Hc.
  destruct Hcase as [(Ht2 & e & ->) | (inputs & buffers & out & Hin & Hplace & Ht2 & ->)].
  { exists (Raise e), s2, [e1]. split; [reflexivity|]. split; [exact Hb2|].
    split; [rewrite Ht2; reflexivity|]. simpl. eauto. }
  set (e2 := EvRunWithTensors controlnet_ait_exe inputs buffers out) in *.
  assert (Hs2 : controlnet_event a te t x e2 out)
    by (exists inputs, buffers; auto).
  destruct out as [cn|e]; cbn [res_bind].
  2:{ exists (Raise e), s2, [e1; e2]. split; [reflexivity|]. split; [exact Hb2|].
      split; [rewrite Ht2; simpl; rewrite <- app_assoc; reflexivity|].
      simpl. eauto 8. }
  destruct (controlnet_output cn) as [[down mid]|e] eqn:Hout.
  2:{ exists (Raise e), s2, [e1; e2]. split; [reflexivity|]. split; [exact Hb2|].
      split; [rewrite Ht2; simpl; rewrite <- app_assoc; reflexivity|].
      simpl. eauto 8. }
  apply controlnet_output_inv in Hout. destruct Hout as (Hmid & ->).
  cbn [fst snd].
  destruct (unet_inference_spec env x t te (height a) (width a)
              (removelast cn) mid s2)
    as (ru & s3 & Hu & Hb3 & Hcase).
  rewrite bind_run, Hu.
  assert (Ht12 : trace s2 = trace s ++ [e1; e2])
    by (rewrite Ht2; simpl; rewrite <- app_assoc; reflexivity).
  destruct Hcase as [(Ht3 & e & ->) | (uin & ubuf & uout & Huin & HF & Huplace & Ht3 & ->)].
  { exists (Raise e), s3, [e1; e2]. split; [reflexivity|].
    split; [congruence|]. split; [congruence|]. simpl. eauto 8. }
  set (e3 := EvRunWithTensors unet_ait_exe uin ubuf uout) in *.
  assert (Hs3 : unet_event (batch s) te t x cn e3 uout).
  { exists mid, uin, ubuf. rewrite Hb2 in Huin, HF. auto. }
  assert (Ht123 : trace s3 = trace s ++ [e1; e2; e3])
    by (rewrite Ht3, Ht12, <- app_assoc; reflexivity).
  destruct uout as [un|e]; cbn [res_bind].
  2:{ exists (Raise e), s3, [e1; e2; e3]. split; [reflexivity|].
      split; [congruence|]. split; [exact Ht123|]. simpl. eauto 10. }
  destruct (nchw_output un) as [noise_pred|e] eqn:Hnp.
  2:{ exists (Raise e), s3, [e1; e2; e3]. split; [reflexivity|].
      split; [congruence|]. split; [exact Ht123|]. simpl. eauto 10. }
  rewrite bind_run. unfold lift at 1.
  destruct (perform_guidance env a noise_pred) as [noise|e] eqn:Hg.
  2:{ exists (Raise e), s3, [e1; e2; e3]. split; [reflexivity|].
      split; [congruence|]. split; [exact Ht123|]. simpl. eauto 10. }
  unfold call.
  destruct (step env noise t l kw (world s3)) as [o w4].
  eexists _, _, [e1; e2; e3; _]. split; [reflexivity|]. simpl.
  split; [congruence|].
  split; [rewrite Ht123, <- app_assoc; reflexivity|].
  exists x, cn, un. repeat split; auto.
  exists noise_pred, noise. auto.
Qed.

(** The loop makes the calls [loop_run] describes, turn after turn. *)
Lemma denoise_spec ts : forall l s,
  exists r s' evs,
    denoise env a te kw ts l s = (r, s') /\
    batch s' = batch s /\
    trace s' = trace s ++ evs /\
    loop_run env a (batch s) te kw ts l evs r.
Proof.
  induction ts as [|t ts IH]; intros l s; simpl.
  - exists (Ok l), s, []. rewrite app_nil_r. repeat split. constructor.
  - destruct (denoise_step_spec t l s) as (r1 & s1 & evs1 & H1 & Hb1 & Ht1 & Hit).
    rewrite bind_run, H1. destruct r1 as [l'|e].
    + destruct (IH l' s1) as (r & s' & evs & H & Hb & Ht & Hrun).
      exists r, s', (evs1 ++ evs). split; [exact H|]. split; [congruence|].
      split; [rewrite Ht, Ht1, app_assoc; reflexivity|].
      rewrite Hb1 in Hrun. eapply loop_turn; eauto.
    + exists (Raise e), s1, evs1. repeat split; auto.
      apply loop_raise. exact Hit.
Qed.

End Loop.

(** ** Comparisons of floats *)

Lemma SFcompare_antisym x y :
  SFcompare y x = option_map CompOpp (SFcompare x y).
Proof.
  destruct x as [sx|sx| |sx mx ex], y as [sy|sy| |sy my ey]; simpl;
    try reflexivity;
    try (destruct sx; reflexivity);
    try (destruct sy; reflexivity);
    try (destruct sx, sy; reflexivity).
  destruct sx, sy; try reflexivity;
    rewrite (Z.compare_antisym ex ey);
    destruct (ex ?= ey)%Z; simpl; try reflexivity;
    rewrite !Pos.compare_cont_spec; simpl;
    rewrite (Pos.compare_antisym mx my);
    destruct (mx ?= my)%positive; reflexivity.
Qed.

(** [a <= b] excludes [a > b]. *)
Lemma py_le_not_gt x y : py_le x y = true -> py_gt x y = false.
Proof.
  unfold py_le, py_gt, SFleb, SFltb. rewrite (SFcompare_antisym x y).
  destruct (SFcompare x y) as [[]|]; simpl; intros H;
    try reflexivity; discriminate.
Qed.

(** ** Traces, entry by entry *)

Lemma last_cons_default {A} (l : list A) : forall x d,
  last (x :: l) d = last l x.
Proof.
  induction l as [|y l IH]; intros x d; [reflexivity|].
  change (last (x :: y :: l) d) with (last (y :: l) d).
  rewrite (IH y d), (IH y x). reflexivity.
Qed.

Lemma chain_app P evs1 : forall prev evs2,
  chain P prev evs1 -> chain P (last_or prev evs1) evs2 ->
  chain P prev (evs1 ++ evs2).
Proof.
  induction evs1 as [|e evs1 IH]; intros prev evs2 H1 H2.
  - exact H2.
  - destruct H1 as (He & H1). split; [exact He|].
    apply IH; [exact H1|]. destruct evs1 as [|e' evs1]; [exact H2|].
    unfold last_or in *. rewrite last_cons_default in H2. exact H2.
Qed.

Lemma chain_Forall (P : option event -> event -> Prop) (Q : event -> Prop) evs :
  (forall prev e, Q e -> P prev e) ->
  Forall Q evs -> forall prev, chain P prev evs.
Proof.
  intros HQ H. induction H as [|e evs He H IH]; intros prev; simpl; auto.
Qed.

(** ** Chunks of an even batch *)

Lemma chunk_halves t b rest chunks u v :
  shape t = (b * 2) :: rest ->
  torch_chunk2 t = Ok chunks ->
  unpack2 chunks = Ok (u, v) ->
  halves t u v.
Proof.
  intros Hsh Hc Hu. unfold torch_chunk2 in Hc. rewrite Hsh in Hc.
  destruct (b * 2 =? 1) eqn:E; [apply Z.eqb_eq in E; lia|].
  inversion Hc; subst chunks; clear Hc. simpl in Hu. inversion Hu; subst; clear Hu.
  assert (Hk : (b * 2 + 1) / 2 = b) by (symmetry; apply Z.div_unique with 1; lia).
  exists b, rest. rewrite Hk. replace (b * 2 - b) with b by lia.
  rewrite Hsh. replace (2 * b) with (b * 2) by lia. auto.
Qed.

Lemma permute_shape dims t t' :
  permute dims t = Ok t' ->
  shape t' = map (fun d => nth d (shape t) 0) dims.
Proof.
  unfold permute.
  destruct (negb (Nat.eqb (List.length dims) (List.length (shape t))));
    intros H; inversion H; subst; reflexivity.
Qed.

Lemma nchw_output_shape b ys buffers out :
  Forall (fun sh => exists rest, sh = (b * 2) :: rest) buffers ->
  map shape ys = buffers ->
  nchw_output ys = Ok out ->
  exists rest, shape out = (b * 2) :: rest.
Proof.
  intros HF Hm H. unfold nchw_output in H.
  apply res_bind_ok_inv in H. destruct H as (y0 & Hy0 & H).
  apply res_bind_ok_inv in H. destruct H as (p & Hp & H).
  inversion H; subst out; clear H. unfold float.
  destruct ys as [|y ys]; simpl in Hy0; inversion Hy0; subst y0; clear Hy0.
  simpl in Hm. subst buffers. inversion HF as [|? ? (rest & Hy) _]; subst.
  apply permute_shape in Hp. rewrite Hp, Hy. simpl. eauto.
Qed.

(** ** Guidance, as seen on the trace *)

Section Guidance.

Context {W : Type} (env : Env W) (a : call_args).

Lemma guidance_ok_other prev e : ~ is_step e -> guidance_ok env a prev e.
Proof. destruct e; simpl; intros H; auto. exfalso; apply H; exact I. Qed.

Lemma perform_guidance_spec b rest noise_pred model_output :
  shape noise_pred = (b * 2) :: rest ->
  perform_guidance env a noise_pred = Ok model_output ->
  (py_gt (guidance_scale a) f64_one = true ->
   exists u v, halves noise_pred u v /\
               model_output =
                 tensor_add env u
                   (smul (guidance_scale a) (tensor_sub env v u))) /\
  (py_le (guidance_scale a) f64_one = true -> model_output = noise_pred).
Proof.
  intros Hsh H. unfold perform_guidance, do_classifier_free_guidance in H.
  split; intros Hg.
  - rewrite Hg in H.
    apply res_bind_ok_inv in H. destruct H as (chunks & Hc & H).
    apply res_bind_ok_inv in H. destruct H as ([u v] & Hu & H).
    inversion H; subst. exists u, v. split; [|reflexivity].
    eapply chunk_halves; eauto.
  - rewrite (py_le_not_gt _ _ Hg) in H. inversion H; reflexivity.
Qed.

Lemma iteration_chain b te kw t l evs r :
  iteration env a b te kw t l evs r ->
  forall prev, chain (guidance_ok env a) prev evs.
Proof.
  intros H prev.
  destruct evs as [|e1 [|e2 [|e3 [|e4 [|e5 evs]]]]]; simpl in H.
  - exact I.
  - destruct H as (x & e & (li & _ & ->) & _). simpl. auto.
  - destruct H as (x & out & e & (li & _ & ->) & (i & bf & _ & _ & ->) & _).
    simpl. auto.
  - destruct H as (x & cn & out & e & (li & _ & ->) & (i & bf & _ & _ & ->)
                   & (mid & ui & ub & _ & _ & _ & _ & ->) & _).
    simpl. auto.
  - destruct H as (x & cn & un & (li & _ & ->) & (i & bf & _ & _ & ->)
                   & (mid & ui & ub & _ & _ & HF & Hin & ->)
                   & (np & mo & Hnp & Hg & ->)).
    simpl. repeat split; auto.
    simpl in Hin.
    destruct (nchw_output_shape _ _ _ _ HF Hin Hnp) as (rest & Hsh).
    exists ui, ub, un, np. split; [reflexivity|]. split; [exact Hnp|].
    eapply perform_guidance_spec; eauto.
  - contradiction.
Qed.

Lemma loop_run_chain b te kw ts l evs r :
  loop_run env a b te kw ts l evs r ->
  forall prev, chain (guidance_ok env a) prev evs.
Proof.
  induction 1 as [l | t ts l evs l' evs' r Hit Hrun IH | t ts l evs e Hit];
    intros prev.
  - exact I.
  - apply chain_app; [eapply iteration_chain; eauto | apply IH].
  - eapply iteration_chain; eauto.
Qed.

End Guidance.

(** ** The exceptions and calls of each stage of [__call__] *)

Lemma emits_maintains {W A} P E (c : M W A) : maintains P E c -> emits P E c.
Proof. intros H s. destruct (H s) as (_ & Ht & He). auto. Qed.

Lemma emits_bind {W A B} P E (c : M W A) (k : A -> M W B) :
  emits P E c -> (forall x, emits P E (k x)) -> emits P E (bind c k).
Proof.
  intros Hc Hk s. rewrite bind_run.
  destruct (Hc s) as ((evs & Ht & Hp) & He).
  destruct (c s) as [[x|e] s1]; simpl in *.
  - destruct (Hk x s1) as ((evs' & Ht' & Hp') & He').
    split; [|exact He'].
    exists (evs ++ evs'). rewrite Ht', Ht, app_assoc. split; [reflexivity|].
    apply Forall_app; auto.
  - split; [exists evs; auto|].
    intros e' H. inversion H; subst. apply He. reflexivity.
Qed.

Lemma emits_set_batch {W} P E b : emits P E (set_batch (W := W) b).
Proof.
  intros s. simpl. split; [exists []; rewrite app_nil_r; auto | discriminate].
Qed.

Lemma emits_lift {W A} P (E : exn -> Prop) (r : res A) :
  (forall e, r = Raise e -> E e) -> emits P E (lift (W := W) r).
Proof. intros H. apply emits_maintains, maintains_lift, H. Qed.

Lemma uncond_tokens_of_raises p n b e :
  uncond_tokens_of p n b = Raise e -> low_level e \/ negative_prompt_error e.
Proof.
  unfold uncond_tokens_of.
  destruct (is_None n); [discriminate|].
  destruct (negb (pyclass_eqb (type_of p) (type_of n)));
    [intros H; inversion H; subst; right; exact I|].
  destruct n; simpl; try discriminate;
    try (intros H; inversion H; subst; left; exact I).
  - destruct (negb (b =? _)); intros H; inversion H; subst; right; exact I.
  - destruct (negb (b =? _)); intros H; inversion H; subst; right; exact I.
Qed.

Section Stages.

Context {W : Type} (env : Env W) (a : call_args).

Lemma maintains_tokenizer text n :
  maintains prepare_event low_level (tokenizer env text n).
Proof. unfold tokenizer. repeat maintains_step. Qed.

Lemma maintains_clip_prepare i n :
  maintains prepare_event low_level (clip_inference env i n).
Proof.
  eapply maintains_weaken; [| | apply maintains_clip_inference]; auto.
  intros e. destruct e; simpl; auto.
Qed.

Lemma maintains_encode_prompt :
  maintains prepare_event low_level (encode_prompt env a).
Proof.
  unfold encode_prompt.
  apply maintains_bind; [apply maintains_read | intros ml].
  apply maintains_bind; [apply maintains_tokenizer | intros ti].
  apply maintains_bind; [apply maintains_clip_prepare | intros te].
  apply maintains_ret.
Qed.

Lemma maintains_text_embeddings_of b :
  maintains prepare_event (text_error a) (text_embeddings_of env a b).
Proof.
  assert (Hlow : forall (A : Type) (c : M W A),
             maintains prepare_event low_level c ->
             maintains prepare_event (text_error a) c).
  { intros A c. apply maintains_weaken; auto. intros e He; left; exact He. }
  unfold text_embeddings_of.
  apply maintains_bind; [apply Hlow, maintains_encode_prompt | intros enc].
  destruct (do_classifier_free_guidance a) eqn:Hg; [| apply maintains_ret].
  apply maintains_bind; [apply Hlow, maintains_lift_low; auto with low | intros n].
  apply maintains_bind.
  { apply maintains_lift. intros e He. unfold text_error. rewrite Hg.
    apply uncond_tokens_of_raises in He. destruct He; auto. }
  intros ut.
  apply maintains_bind; [apply Hlow, maintains_tokenizer | intros ui].
  apply maintains_bind; [apply Hlow, maintains_clip_prepare | intros ue].
  apply Hlow, maintains_lift_low. auto with low.
Qed.

Lemma maintains_initial_latents b :
  maintains prepare_event (latents_error a b) (initial_latents env a b).
Proof.
  unfold initial_latents.
  apply maintains_bind; [| intros l; apply maintains_ret].
  destruct (latents a) as [l|] eqn:Hl.
  - destruct (shape_eqb (shape l) (latents_shape a b)) eqn:Hs; simpl.
    + apply maintains_ret.
    + apply maintains_raise. right. exists l. repeat split; auto.
      apply shape_eqb_false, Hs.
  - eapply maintains_weaken with (P := prepare_event) (E := low_level); auto.
    { intros e He; left; exact He. }
    unfold randn. apply maintains_call; [intros r; exact I | intros c m; exact I].
Qed.

Lemma maintains_prepare_scheduler l :
  maintains prepare_event low_level (prepare_scheduler env a l).
Proof. unfold prepare_scheduler. repeat maintains_step. Qed.

Lemma maintains_prepare_inputs b :
  maintains prepare_event (inputs_error a b) (prepare_inputs env a b).
Proof.
  unfold prepare_inputs.
  apply maintains_bind.
  { eapply maintains_weaken; [| | apply maintains_text_embeddings_of]; auto.
    intros e He; left; exact He. }
  intros te.
  apply maintains_bind.
  { eapply maintains_weaken; [| | apply maintains_initial_latents]; auto.
    intros e He; right; exact He. }
  intros l.
  apply maintains_bind.
  { eapply maintains_weaken; [| | apply maintains_prepare_scheduler]; auto.
    intros e He; left; left; exact He. }
  intros lk.
  apply maintains_bind; [apply maintains_read | intros ts; apply maintains_ret].
Qed.

Lemma raises_low_expand_latents l : raises_low (expand_latents a l).
Proof. unfold expand_latents. destruct (do_classifier_free_guidance a); auto with low. Qed.

Lemma raises_low_perform_guidance n : raises_low (perform_guidance env a n).
Proof.
  unfold perform_guidance. destruct (do_classifier_free_guidance a); low_auto.
Qed.

Lemma maintains_denoise_step te kw t l :
  maintains loop_event low_level (denoise_step env a te kw t l).
Proof.
  unfold denoise_step.
  apply maintains_bind;
    [apply maintains_lift_low, raises_low_expand_latents | intros li].
  apply maintains_bind;
    [apply maintains_call; [intros r; exact I | intros c m; exact I] | intros x].
  apply maintains_bind.
  { eapply maintains_weaken; [| | apply maintains_controlnet_inference]; auto.
    intros e; destruct e; simpl; auto. }
  intros res.
  apply maintains_bind.
  { eapply maintains_weaken; [| | apply maintains_unet_inference]; auto.
    intros e; destruct e; simpl; auto. }
  intros np.
  apply maintains_bind;
    [apply maintains_lift_low, raises_low_perform_guidance | intros n].
  apply maintains_call; [intros r; exact I | intros c m; exact I].
Qed.

Lemma maintains_denoise te kw ts : forall l,
  maintains loop_event low_level (denoise env a te kw ts l).
Proof.
  induction ts as [|t ts IH]; intros l; simpl.
  - apply maintains_ret.
  - apply maintains_bind; [apply maintains_denoise_step | intros l'; apply IH].
Qed.

Lemma maintains_postprocess image :
  maintains decode_event low_level (postprocess env a image).
Proof.
  unfold postprocess.
  apply maintains_bind; [apply maintains_lift_low; auto with low | intros im].
  apply maintains_bind.
  { destruct (is_pil (output_type a)); [| apply maintains_ret].
    apply maintains_bind; [| intros pl; apply maintains_ret].
    apply maintains_call; [intros r; exact I | intros c m; exact I]. }
  intros im'. destruct (negb (return_dict a)); apply maintains_ret.
Qed.

Lemma maintains_decode l :
  maintains decode_event low_level (decode env a l).
Proof.
  unfold decode.
  apply maintains_bind; [| intros image; apply maintains_postprocess].
  eapply maintains_weaken; [| | apply maintains_vae_inference]; auto.
  intros e; destruct e; simpl; auto.
Qed.

End Stages.

Lemma emits_weaken {W A} (P P' : event -> Prop) (E E' : exn -> Prop) (c : M W A) :
  (forall e, P e -> P' e) -> (forall e, E e -> E' e) ->
  emits P E c -> emits P' E' c.
Proof.
  intros HP HE Hc s. destruct (Hc s) as ((evs & Ht & Hp) & He).
  split; [|auto]. exists evs. split; [exact Ht | eapply Forall_impl; eauto].
Qed.

Section Call.

Context {W : Type} (env : Env W) (a : call_args).

Lemma batch_size_of_raises e :
  batch_size_of (prompt a) = Raise e -> call_error a e.
Proof.
  unfold batch_size_of.
  destruct (isinstance_str (prompt a)) eqn:Hs; [discriminate|].
  destruct (isinstance_list (prompt a)) eqn:Hl.
  - destruct (prompt a); simpl in *; discriminate.
  - intros H. inversion H; subst. right; left. auto.
Qed.

Lemma check_height_width_raises e :
  check_height_width (height a) (width a) = Raise e -> call_error a e.
Proof.
  unfold check_height_width.
  destruct (negb (height a mod 8 =? 0) || negb (width a mod 8 =? 0)) eqn:Hc;
    [|discriminate].
  intros H. inversion H; subst. right; right; left. split; [reflexivity|].
  intros (Hh & Hw). rewrite Hh, Hw in Hc. discriminate.
Qed.

Lemma inputs_error_call_error b e :
  batch_size_of (prompt a) = Ok b -> inputs_error a b e -> call_error a e.
Proof.
  intros Hb [[He | He] | [He | (l & Hl & Hs & He)]].
  - left; exact He.
  - right; right; right; left; exact He.
  - left; exact He.
  - right; right; right; right. exists l, b. auto.
Qed.

Lemma emits_prepare : emits prepare_event (call_error a) (prepare env a).
Proof.
  intros s. unfold prepare. rewrite bind_run. unfold lift at 1.
  destruct (batch_size_of (prompt a)) as [b|e] eqn:Hb.
  2:{ simpl. split; [exists []; rewrite app_nil_r; auto|].
      intros e' H. inversion H; subst. apply batch_size_of_raises, Hb. }
  rewrite bind_run. unfold lift at 1.
  destruct (check_height_width (height a) (width a)) as [u|e] eqn:Hc.
  2:{ simpl. split; [exists []; rewrite app_nil_r; auto|].
      intros e' H. inversion H; subst. apply check_height_width_raises, Hc. }
  rewrite bind_run. unfold set_batch at 1.
  destruct (maintains_prepare_inputs env a b
              {| world := world s; batch := b; trace := trace s |})
    as (_ & Ht & He).
  split; [exact Ht|].
  intros e H. eapply inputs_error_call_error; eauto.
Qed.

(** [__call__] either stops before the loop, or runs the loop from what
    [prepare] returned and, if the loop ends, decodes its result. *)
Lemma call_cases s :
  (exists e s1,
      prepare env a s = (Raise e, s1) /\ __call__ env a s = (Raise e, s1)) \/
  (exists p s1 r s2 evs,
      prepare env a s = (Ok p, s1) /\
      denoise env a (p_text_embeddings p) (p_extra_step_kwargs p)
              (p_timesteps p) (p_latents p) s1 = (r, s2) /\
      batch s2 = batch s1 /\
      trace s2 = trace s1 ++ evs /\
      loop_run env a (batch s1) (p_text_embeddings p) (p_extra_step_kwargs p)
               (p_timesteps p) (p_latents p) evs r /\
      match r with
      | Ok l => __call__ env a s = decode env a l s2
      | Raise e => __call__ env a s = (Raise e, s2)
      end).
Proof.
  unfold __call__. rewrite bind_run.
  destruct (prepare env a s) as [[p|e] s1]; [right | left; eauto].
  destruct (denoise_spec env a (p_text_embeddings p) (p_extra_step_kwargs p)
              (p_timesteps p) (p_latents p) s1)
    as (r & s2 & evs & Hd & Hb & Ht & Hrun).
  exists p, s1, r, s2, evs. rewrite bind_run, Hd.
  repeat split; auto. destruct r; reflexivity.
Qed.

Lemma emits_call : emits call_event (call_error a) (__call__ env a).
Proof.
  unfold __call__.
  apply emits_bind.
  { eapply emits_weaken; [| | apply emits_prepare]; auto.
    intros e He; left; exact He. }
  intros p. apply emits_bind.
  { eapply emits_weaken; [| | apply emits_maintains, maintains_denoise].
    - intros e He; right; left; exact He.
    - intros e He; left; exact He. }
  intros l.
  eapply emits_weaken; [| | apply emits_maintains, maintains_decode].
  - intros e He; right; right; exact He.
  - intros e He; left; exact He.
Qed.

End Call.

(** ** Guidance (claim C1) *)

Lemma not_step_prepare e : prepare_event e -> ~ is_step e.
Proof. destruct e; simpl; auto. Qed.

Lemma not_step_decode e : decode_event e -> ~ is_step e.
Proof. destruct e; simpl; auto. Qed.

(** C1. In every run of [__call__], whatever the collaborators do: each call
    of [scheduler.step] comes right after a run of the UNet module; with
    [noise_pred] the output of [unet_inference] for that run, the noise
    prediction passed to [step] is [noise_pred_uncond + guidance_scale *
    (noise_pred_text - noise_pred_uncond)] when [guidance_scale > 1.0], where
    [noise_pred_uncond] and [noise_pred_text] are the first and the second
    half of [noise_pred] along the batch dimension; it is [noise_pred],
    unmodified, when [guidance_scale <= 1.0]. *)
Theorem guidance_on_every_step {W : Type} (env : Env W) (a : call_args)
  (s : state W) :
  exists evs,
    trace (snd (__call__ env a s)) = trace s ++ evs /\
    chain (guidance_ok env a) None evs.
Proof.
  destruct (emits_prepare env a s) as ((evs_p & Htp & HPp) & _).
  assert (Hp : forall prev, chain (guidance_ok env a) prev evs_p).
  { apply chain_Forall with (Q := prepare_event); [|exact HPp].
    intros prev e He. apply guidance_ok_other, not_step_prepare, He. }
  destruct (call_cases env a s)
    as [(e & s1 & Hprep & Hcall)
       | (p & s1 & r & s2 & evs_l & Hprep & Hd & Hb & Htl & Hrun & Hcall)].
  - rewrite Hprep in Htp. simpl in Htp.
    exists evs_p. rewrite Hcall. simpl. auto.
  - rewrite Hprep in Htp. simpl in Htp.
    pose proof (loop_run_chain env a _ _ _ _ _ _ _ Hrun) as Hl.
    destruct r as [l|e].
    + destruct (maintains_decode env a l s2) as (_ & (evs_d & Htd & HPd) & _).
      exists (evs_p ++ evs_l ++ evs_d). rewrite Hcall, Htd, Htl, Htp.
      rewrite <- !app_assoc. split; [reflexivity|].
      apply chain_app; [apply Hp|]. apply chain_app; [apply Hl|].
      apply chain_Forall with (Q := decode_event); [|exact HPd].
      intros prev e He. apply guidance_ok_other, not_step_decode, He.
    + exists (evs_p ++ evs_l). rewrite Hcall. simpl. rewrite Htl, Htp.
      rewrite <- !app_assoc. split; [reflexivity|].
      apply chain_app; [apply Hp | apply Hl].
Qed.

(** ** The loop and what surrounds it (claims C2 and C6) *)

Section Prepare.

Context {W : Type} (env : Env W) (a : call_args).

(** The stages of a [prepare] that returns. *)
Lemma prepare_run s :
  prepare env a s =
  match batch_size_of (prompt a) with
  | Raise e => (Raise e, s)
  | Ok b =>
      match check_height_width (height a) (width a) with
      | Raise e => (Raise e, s)
      | Ok _ => prepare_inputs env a b (with_batch b s)
      end
  end.
Proof.
  unfold prepare. rewrite bind_run. unfold lift at 1.
  destruct (batch_size_of (prompt a)) as [b|e]; [|reflexivity].
  rewrite bind_run. unfold lift at 1.
  destruct (check_height_width (height a) (width a)) as [u|e]; reflexivity.
Qed.

Lemma prepare_inputs_ok_inv b s p s1 :
  prepare_inputs env a b s = (Ok p, s1) ->
  exists s2 l0 s3,
    text_embeddings_of env a b s = (Ok (p_text_embeddings p), s2) /\
    initial_latents env a b s2 = (Ok l0, s3) /\
    prepare_scheduler env a l0 s3 = (Ok (p_latents p, p_extra_step_kwargs p), s1) /\
    p_timesteps p = timesteps env (world s1).
Proof.
  unfold prepare_inputs. intros H.
  apply bind_ok_inv in H. destruct H as (te & s2 & Hte & H).
  apply bind_ok_inv in H. destruct H as (l0 & s3 & Hl & H).
  apply bind_ok_inv in H. destruct H as ([l kw] & s4 & Hk & H).
  apply bind_ok_inv in H. destruct H as (ts & s5 & Hts & H).
  unfold read in Hts. unfold ret in H.
  inversion Hts; subst; clear Hts. inversion H; subst; clear H. simpl.
  exists s2, l0, s3. auto.
Qed.

Lemma prepare_ok_inv s p s1 :
  prepare env a s = (Ok p, s1) ->
  exists b s2 l0 s3,
    batch_size_of (prompt a) = Ok b /\
    check_height_width (height a) (width a) = Ok tt /\
    text_embeddings_of env a b (with_batch b s) = (Ok (p_text_embeddings p), s2) /\
    initial_latents env a b s2 = (Ok l0, s3) /\
    prepare_scheduler env a l0 s3 = (Ok (p_latents p, p_extra_step_kwargs p), s1) /\
    p_timesteps p = timesteps env (world s1) /\
    batch s1 = b.
Proof.
  rewrite prepare_run. intros H.
  destruct (batch_size_of (prompt a)) as [b|e]; [|discriminate].
  destruct (check_height_width (height a) (width a)) as [[]|e]; [|discriminate].
  destruct (maintains_prepare_inputs env a b (with_batch b s)) as (Hb & _).
  rewrite H in Hb. simpl in Hb.
  apply prepare_inputs_ok_inv in H. destruct H as (s2 & l0 & s3 & H1 & H2 & H3 & H4).
  exists b, s2, l0, s3. auto 10.
Qed.

(** The scheduler stage: [set_timesteps] is called, then the latents are
    multiplied by [init_noise_sigma]. *)
Lemma prepare_scheduler_ok_inv l0 s l kw s1 :
  prepare_scheduler env a l0 s = (Ok (l, kw), s1) ->
  l = tensor_mul env l0 (init_noise_sigma env (world s1)) /\
  exists offset,
    trace s1 = trace s ++ [EvSetTimesteps (num_inference_steps a) offset (Ok tt)].
Proof.
  unfold prepare_scheduler. intros H.
  apply bind_ok_inv in H. destruct H as (off & s0 & Ho & H).
  unfold read in Ho. inversion Ho; subst; clear Ho.
  apply bind_ok_inv in H. destruct H as ([] & s2 & Hs & H).
  unfold call in Hs.
  destruct (set_timesteps env (num_inference_steps a)
              (if set_timesteps_accepts_offset env (world s0) then Some 1 else None)
              (world s0)) as [o w'].
  destruct o as [[]|]; simpl in Hs; inversion Hs; subst; clear Hs.
  apply bind_ok_inv in H. destruct H as (sg & s3 & Hg & H).
  unfold read in Hg. inversion Hg; subst; clear Hg.
  apply bind_ok_inv in H. destruct H as (ae & s4 & Hae & H).
  unfold read in Hae. inversion Hae; subst; clear Hae.
  apply bind_ok_inv in H. destruct H as (ag & s5 & Hag & H).
  unfold read in Hag. inversion Hag; subst; clear Hag.
  unfold ret in H. inversion H; subst; clear H. simpl. eauto.
Qed.

(** After the loop, nothing is called before the VAE module is run on
    [1 / 0.18215 * latents]. *)
Lemma decode_first_event l s :
  exists evs,
    trace (snd (decode env a l s)) = trace s ++ evs /\
    match evs with
    | [] => exists e, fst (decode env a l s) = Raise e
    | e :: _ => vae_event l e
    end.
Proof.
  unfold decode. rewrite bind_run.
  destruct (vae_inference_spec env (smul vae_scale l) (height a) (width a) s)
    as (r & s1 & Hv & _ & Hcase).
  rewrite Hv.
  destruct Hcase as [(Ht & e & ->) | (inputs & buffers & out & Hin & Hp & Ht & ->)].
  - exists []. rewrite app_nil_r. simpl. eauto.
  - set (e1 := EvRunWithTensors vae_ait_exe inputs buffers out) in *.
    assert (He1 : vae_event l e1) by (exists inputs, buffers, out; auto).
    destruct (res_bind out nchw_output) as [image|e].
    + destruct (maintains_postprocess env a image s1) as (_ & (evs' & Ht' & _) & _).
      exists (e1 :: evs'). rewrite Ht', Ht, <- app_assoc. auto.
    + exists [e1]. simpl. auto.
Qed.

End Prepare.

(** C2. For every call of [__call__] that gets to the loop ([prepare]
    returns: the guards passed and the calls before the loop returned), the
    loop runs over [scheduler.timesteps] in their order ([loop_run]); in each
    turn [scale_model_input] is called on the current latents, duplicated
    along the batch dimension when [guidance_scale > 1.0]; the ControlNet
    module is run on the scaled input and its outputs are the residual inputs
    of the UNet run of the same turn; the latents of the next turn are what
    [scheduler.step(noise_pred, t, latents)] returned ([iteration]).  A turn
    that raises ends the call.  After the last timestep the next call, if
    any, is the run of the VAE module on [1 / 0.18215 * latents]. *)
Theorem denoising_loop {W : Type} (env : Env W) (a : call_args)
  (s : state W) (p : prepared) (s1 : state W) :
  prepare env a s = (Ok p, s1) ->
  p_timesteps p = timesteps env (world s1) /\
  batch_size_of (prompt a) = Ok (batch s1) /\
  exists r s2 evs,
    denoise env a (p_text_embeddings p) (p_extra_step_kwargs p)
            (p_timesteps p) (p_latents p) s1 = (r, s2) /\
    trace s2 = trace s1 ++ evs /\
    loop_run env a (batch s1) (p_text_embeddings p) (p_extra_step_kwargs p)
             (timesteps env (world s1)) (p_latents p) evs r /\
    match r with
    | Raise e => __call__ env a s = (Raise e, s2)
    | Ok latents =>
        __call__ env a s = decode env a latents s2 /\
        exists evs',
          trace (snd (__call__ env a s)) = trace s2 ++ evs' /\
          match evs' with
          | [] => exists e, fst (__call__ env a s) = Raise e
          | e :: _ => vae_event latents e
          end
    end.
Proof.
  intros Hprep.
  destruct (prepare_ok_inv env a s p s1 Hprep)
    as (b & s2' & l0 & s3 & Hb & _ & _ & _ & _ & Hts & Hbatch).
  split; [exact Hts|]. split; [congruence|].
  destruct (call_cases env a s)
    as [(e & s1' & Hprep' & _)
       | (p' & s1' & r & s2 & evs & Hprep' & Hd & _ & Ht & Hrun & Hcall)];
    rewrite Hprep in Hprep'; inversion Hprep'; subst p' s1'; clear Hprep'.
  exists r, s2, evs. split; [exact Hd|]. split; [exact Ht|].
  split; [rewrite <- Hts; exact Hrun|].
  destruct r as [l|e]; [|exact Hcall].
  split; [exact Hcall|]. rewrite Hcall. apply decode_first_event.
Qed.

Lemma denoising_loop_witness :
  exists p s1,
    prepare toy_env toy_args toy_state = (Ok p, s1) /\
    (p_timesteps p = timesteps toy_env (world s1) /\
     batch_size_of (prompt toy_args) = Ok (batch s1) /\
     exists r s2 evs,
       denoise toy_env toy_args (p_text_embeddings p) (p_extra_step_kwargs p)
               (p_timesteps p) (p_latents p) s1 = (r, s2) /\
       trace s2 = trace s1 ++ evs /\
       loop_run toy_env toy_args (batch s1) (p_text_embeddings p)
                (p_extra_step_kwargs p) (timesteps toy_env (world s1))
                (p_latents p) evs r /\
       match r with
       | Raise e => __call__ toy_env toy_args toy_state = (Raise e, s2)
       | Ok latents =>
           __call__ toy_env toy_args toy_state = decode toy_env toy_args latents s2 /\
           exists evs',
             trace (snd (__call__ toy_env toy_args toy_state)) = trace s2 ++ evs' /\
             match evs' with
             | [] => exists e, fst (__call__ toy_env toy_args toy_state) = Raise e
             | e :: _ => vae_event latents e
             end
       end).
Proof.
  eexists _, _. split; [vm_compute; reflexivity|].
  apply (denoising_loop toy_env toy_args toy_state). vm_compute. reflexivity.
Defined.

(** ** The guards of [__call__] (claims C3 to C6, C9) *)

Section Guards.

Context {W : Type} (env : Env W) (a : call_args).

Lemma call_raise_prepare s e :
  prepare env a s = (Raise e, s) -> __call__ env a s = (Raise e, s).
Proof. intros H. unfold __call__. rewrite bind_run, H. reflexivity. Qed.

Lemma call_raise_prepare_at s e s1 :
  prepare env a s = (Raise e, s1) -> __call__ env a s = (Raise e, s1).
Proof. intros H. unfold __call__. rewrite bind_run, H. reflexivity. Qed.

Lemma low_level_not_guard e :
  low_level e ->
  (forall c, e <> BadPromptType c) /\
  (forall h w, e <> BadHeightWidth h w) /\
  (forall g x, e <> UnexpectedLatentsShape g x) /\
  ~ negative_prompt_error e.
Proof. destruct e; simpl; intros H; repeat split; try discriminate; auto. Qed.

Lemma negative_prompt_error_not_guard e :
  negative_prompt_error e ->
  (forall c, e <> BadPromptType c) /\
  (forall h w, e <> BadHeightWidth h w) /\
  (forall g x, e <> UnexpectedLatentsShape g x).
Proof. destruct e; simpl; intros H; repeat split; try discriminate; tauto. Qed.

(** The exception of the first guard is raised by the first guard only. *)
Lemma bad_prompt_type_only s c :
  fst (__call__ env a s) = Raise (BadPromptType c) ->
  isinstance_str (prompt a) = false /\ isinstance_list (prompt a) = false.
Proof.
  intros H. destruct (emits_call env a s) as (_ & He).
  destruct (He _ H) as [Hl | [(_ & Hs & Hli) | [(Hx & _) | [(_ & Hn) | (l & b & _ & _ & _ & Hx)]]]];
    try discriminate; try contradiction; auto.
Qed.

(** The exception of the second guard is raised by the second guard only. *)
Lemma bad_height_width_only s h w :
  fst (__call__ env a s) = Raise (BadHeightWidth h w) ->
  ~ (height a mod 8 = 0 /\ width a mod 8 = 0).
Proof.
  intros H. destruct (emits_call env a s) as (_ & He).
  destruct (He _ H) as [Hl | [(Hx & _) | [(_ & Hd) | [(_ & Hn) | (l & b & _ & _ & _ & Hx)]]]];
    try discriminate; try contradiction; auto.
Qed.

Lemma call_bad_prompt s :
  isinstance_str (prompt a) = false -> isinstance_list (prompt a) = false ->
  __call__ env a s = (Raise (BadPromptType (type_of (prompt a))), s).
Proof.
  intros Hs Hl. apply call_raise_prepare. rewrite prepare_run.
  unfold batch_size_of. rewrite Hs, Hl. reflexivity.
Qed.

Lemma batch_size_of_valid :
  isinstance_str (prompt a) = true \/ isinstance_list (prompt a) = true ->
  exists b, batch_size_of (prompt a) = Ok b.
Proof.
  unfold batch_size_of. destruct (prompt a); simpl; intros [H|H];
    try discriminate; eauto.
Qed.

Lemma call_bad_height_width s :
  isinstance_str (prompt a) = true \/ isinstance_list (prompt a) = true ->
  ~ (height a mod 8 = 0 /\ width a mod 8 = 0) ->
  __call__ env a s = (Raise (BadHeightWidth (height a) (width a)), s).
Proof.
  intros Hp Hd. apply call_raise_prepare. rewrite prepare_run.
  destruct (batch_size_of_valid Hp) as (b & ->).
  unfold check_height_width.
  destruct (height a mod 8 =? 0) eqn:Hh; [|reflexivity].
  destruct (width a mod 8 =? 0) eqn:Hw; [|reflexivity].
  exfalso. apply Hd. split; apply Z.eqb_eq; assumption.
Qed.

(** The value of [self.batch] once both guards have passed. *)
Lemma call_batch s b :
  batch_size_of (prompt a) = Ok b ->
  check_height_width (height a) (width a) = Ok tt ->
  batch (snd (__call__ env a s)) = b.
Proof.
  intros Hb Hc. unfold __call__. rewrite bind_run, prepare_run, Hb, Hc.
  destruct (maintains_prepare_inputs env a b (with_batch b s)) as (B1 & _).
  destruct (prepare_inputs env a b (with_batch b s)) as [[p|e] s1];
    simpl in B1; [|exact B1].
  rewrite bind_run.
  destruct (maintains_denoise env a (p_text_embeddings p) (p_extra_step_kwargs p)
              (p_timesteps p) (p_latents p) s1) as (B2 & _).
  destruct (denoise env a (p_text_embeddings p) (p_extra_step_kwargs p)
              (p_timesteps p) (p_latents p) s1) as [[l|e] s2];
    simpl in B2; [|simpl; congruence].
  destruct (maintains_decode env a l s2) as (B3 & _). congruence.
Qed.

End Guards.

(** C4, as the code has it.  The [ValueError] of the first guard (the one
    that reports the type of [prompt]) is raised if and only if [prompt] is
    neither a [str] nor a [list]; it is then the outcome of the call, and
    nothing has been called.  When [prompt] is a [str] the batch size is 1,
    when it is a list the batch size is its length; that is the value of
    [self.batch] after every call that passes the check of [height] and
    [width]. *)
Theorem prompt_type_guard {W : Type} (env : Env W) (a : call_args) (s : state W) :
  ((exists c, fst (__call__ env a s) = Raise (BadPromptType c)) <->
   (isinstance_str (prompt a) = false /\ isinstance_list (prompt a) = false)) /\
  (isinstance_str (prompt a) = false /\ isinstance_list (prompt a) = false ->
   __call__ env a s = (Raise (BadPromptType (type_of (prompt a))), s) /\
   class_of (BadPromptType (type_of (prompt a))) = ValueError) /\
  (isinstance_str (prompt a) = true -> batch_size_of (prompt a) = Ok 1) /\
  (forall sub items,
      prompt a = VList sub items ->
      batch_size_of (prompt a) = Ok (Z.of_nat (List.length items))) /\
  (forall b,
      batch_size_of (prompt a) = Ok b ->
      height a mod 8 = 0 -> width a mod 8 = 0 ->
      batch (snd (__call__ env a s)) = b).
Proof.
  split; [split|].
  - intros (c & H). eapply bad_prompt_type_only; eauto.
  - intros (Hs & Hl). exists (type_of (prompt a)).
    rewrite (call_bad_prompt env a s Hs Hl). reflexivity.
  - split; [intros (Hs & Hl); split; [apply call_bad_prompt; auto | reflexivity]|].
    split; [intros Hs; unfold batch_size_of; rewrite Hs; reflexivity|].
    split.
    + intros sub items Hp. rewrite Hp. reflexivity.
    + intros b Hb Hh Hw. apply call_batch; [exact Hb|].
      unfold check_height_width. rewrite Hh, Hw. reflexivity.
Qed.

(** C5. For every call whose [prompt] is a [str] or a [list]: when [height]
    or [width] is not divisible by 8 the call raises the [ValueError] of the
    second guard, before anything is called; when both are divisible by 8 the
    call does not raise that error. *)
Theorem height_width_guard {W : Type} (env : Env W) (a : call_args) (s : state W) :
  isinstance_str (prompt a) = true \/ isinstance_list (prompt a) = true ->
  (~ (8 | height a) \/ ~ (8 | width a) ->
   __call__ env a s = (Raise (BadHeightWidth (height a) (width a)), s) /\
   class_of (BadHeightWidth (height a) (width a)) = ValueError) /\
  ((8 | height a) /\ (8 | width a) ->
   forall h w, fst (__call__ env a s) <> Raise (BadHeightWidth h w)).
Proof.
  intros Hp. split.
  - intros Hd. split; [|reflexivity]. apply call_bad_height_width; [exact Hp|].
    intros (Hh & Hw).
    destruct Hd as [Hd | Hd]; apply Hd; apply Z.mod_divide; auto; lia.
  - intros (Hh & Hw) h w H. apply bad_height_width_only in H. apply H.
    split; apply Z.mod_divide; auto; lia.
Qed.

(** ** The result (claim C8) *)

Lemma postprocess_nsfw {W : Type} (env : Env W) a image (s : state W) r s' :
  postprocess env a image s = (Ok r, s') -> nsfw_of r = None.
Proof.
  unfold postprocess. intros H.
  apply bind_ok_inv in H. destruct H as (im & s1 & _ & H).
  apply bind_ok_inv in H. destruct H as (im' & s2 & _ & H).
  destruct (negb (return_dict a)); unfold ret in H; inversion H; reflexivity.
Qed.

(** C8. Whenever [__call__] returns, the [nsfw_content_detected] field of the
    output (the second element of the tuple when [return_dict] is false) is
    [None].  The only collaborators called are the tokenizer, the compiled
    modules, the sampler, the scheduler and the PIL conversion: there is no
    safety checker among them. *)
Theorem nsfw_is_none {W : Type} (env : Env W) (a : call_args)
  (s : state W) (r : call_result) (s' : state W) :
  __call__ env a s = (Ok r, s') ->
  nsfw_of r = None /\
  exists evs, trace s' = trace s ++ evs /\ Forall call_event evs.
Proof.
  intros H. split.
  - unfold __call__ in H.
    apply bind_ok_inv in H. destruct H as (p & s1 & _ & H).
    apply bind_ok_inv in H. destruct H as (l & s2 & _ & H).
    unfold decode in H.
    apply bind_ok_inv in H. destruct H as (image & s3 & _ & H).
    eapply postprocess_nsfw; eauto.
  - destruct (emits_call env a s) as ((evs & Ht & HP) & _).
    rewrite H in Ht. eauto.
Qed.

Lemma nsfw_is_none_witness :
  exists r s',
    __call__ toy_env toy_args toy_state = (Ok r, s') /\
    (nsfw_of r = None /\
     exists evs, trace s' = trace toy_state ++ evs /\ Forall call_event evs).
Proof.
  eexists _, _. split; [vm_compute; reflexivity|].
  apply (nsfw_is_none toy_env toy_args toy_state). vm_compute. reflexivity.
Defined.

(** ** Without guidance the negative prompt is not looked at (claim C9) *)

Lemma bind_ext {W A B} (c1 c2 : M W A) (k1 k2 : A -> M W B) s :
  c1 s = c2 s -> (forall x s', k1 x s' = k2 x s') ->
  bind c1 k1 s = bind c2 k2 s.
Proof.
  intros Hc Hk. rewrite !bind_run, Hc.
  destruct (c2 s) as [[x|e] s1]; [apply Hk | reflexivity].
Qed.

Section NoGuidance.

Context {W : Type} (env : Env W) (a : call_args).
Hypothesis no_guidance : py_gt (guidance_scale a) f64_one = false.

Lemma text_embeddings_of_no_guidance n b s :
  text_embeddings_of env (with_negative_prompt n a) b s =
  text_embeddings_of env a b s.
Proof.
  unfold text_embeddings_of, do_classifier_free_guidance.
  cbn [guidance_scale with_negative_prompt].
  rewrite no_guidance. reflexivity.
Qed.

Lemma denoise_no_guidance n te kw ts : forall l s,
  denoise env (with_negative_prompt n a) te kw ts l s = denoise env a te kw ts l s.
Proof.
  induction ts as [|t ts IH]; intros l s; [reflexivity|].
  simpl. apply bind_ext; [reflexivity | intros l' s'; apply IH].
Qed.

Lemma call_no_guidance n s :
  __call__ env (with_negative_prompt n a) s = __call__ env a s.
Proof.
  unfold __call__. apply bind_ext.
  - rewrite !prepare_run. cbn [prompt height width with_negative_prompt].
    destruct (batch_size_of (prompt a)) as [b|e]; [|reflexivity].
    destruct (check_height_width (height a) (width a)) as [u|e]; [|reflexivity].
    unfold prepare_inputs. apply bind_ext; [|reflexivity].
    apply text_embeddings_of_no_guidance.
  - intros p s1. apply bind_ext; [apply denoise_no_guidance | reflexivity].
Qed.

End NoGuidance.

(** C9. Two calls of [__call__] on the same state that differ in
    [negative_prompt] only have the same outcome (result or exception, final
    state and calls made) when [guidance_scale <= 1.0]; in particular such a
    call raises neither the [TypeError] nor the [ValueError] of the
    negative-prompt checks, whatever [negative_prompt] is. *)
Theorem negative_prompt_ignored {W : Type} (env : Env W) (a : call_args)
  (n1 n2 : pyval) (s : state W) :
  py_le (guidance_scale a) f64_one = true ->
  __call__ env (with_negative_prompt n1 a) s =
  __call__ env (with_negative_prompt n2 a) s /\
  forall e,
    fst (__call__ env (with_negative_prompt n1 a) s) = Raise e ->
    ~ negative_prompt_error e.
Proof.
  intros Hle. pose proof (py_le_not_gt _ _ Hle) as Hg. split.
  - rewrite !call_no_guidance by exact Hg. reflexivity.
  - intros e H. destruct (emits_call env (with_negative_prompt n1 a) s) as (_ & He).
    destruct (He _ H) as [Hl | [(-> & _) | [(-> & _) | [(Hc & _) | (l & b & _ & _ & _ & ->)]]]];
      simpl; auto.
    + apply low_level_not_guard in Hl. tauto.
    + unfold do_classifier_free_guidance in Hc. simpl in Hc. congruence.
Qed.

(** ** The negative-prompt checks (claim C3) *)

Lemma pyclass_eqb_eq x y : pyclass_eqb x y = true <-> x = y.
Proof.
  split.
  - destruct x, y; simpl; intros H; try discriminate; try reflexivity;
      apply String.eqb_eq in H; subst; reflexivity.
  - intros ->. destruct y; simpl; try reflexivity; apply String.eqb_refl.
Qed.

Section NegativePrompt.

Context {W : Type} (env : Env W) (a : call_args).

Lemma clip_inference_ok_shape ti n s te s' :
  clip_inference env ti n s = (Ok te, s') ->
  exists ml, shape_last (ishape ti) = Ok ml.
Proof.
  unfold clip_inference. intros H.
  apply bind_ok_inv in H. destruct H as (inputs & s1 & Hi & _).
  unfold lift in Hi. assert (Hc : clip_inputs ti n = Ok inputs) by congruence.
  unfold clip_inputs in Hc.
  apply res_bind_ok_inv in Hc. destruct Hc as (bs & Hbs & _).
  destruct (ishape ti); simpl in *; [discriminate | eauto].
Qed.

Lemma encode_prompt_ok_shape s ti te s1 :
  encode_prompt env a s = (Ok (ti, te), s1) ->
  exists ml, shape_last (ishape ti) = Ok ml.
Proof.
  unfold encode_prompt. intros H.
  apply bind_ok_inv in H. destruct H as (ml & s2 & _ & H).
  apply bind_ok_inv in H. destruct H as (ti' & s3 & _ & H).
  apply bind_ok_inv in H. destruct H as (te' & s4 & Hc & H).
  unfold ret in H. inversion H; subst.
  eapply clip_inference_ok_shape; eauto.
Qed.

(** A call that gets to the negative-prompt checks and fails one of them
    raises the exception of that check. *)
Lemma call_uncond_tokens_raise s b ti te s1 e :
  py_gt (guidance_scale a) f64_one = true ->
  batch_size_of (prompt a) = Ok b ->
  check_height_width (height a) (width a) = Ok tt ->
  encode_prompt env a (with_batch b s) = (Ok (ti, te), s1) ->
  uncond_tokens_of (prompt a) (negative_prompt a) b = Raise e ->
  __call__ env a s = (Raise e, s1).
Proof.
  intros Hg Hb Hc Henc Hu.
  destruct (encode_prompt_ok_shape _ _ _ _ Henc) as (ml & Hml).
  unfold __call__. rewrite bind_run, prepare_run, Hb, Hc.
  unfold prepare_inputs. rewrite bind_run.
  unfold text_embeddings_of. rewrite bind_run, Henc.
  unfold do_classifier_free_guidance. rewrite Hg. cbn [fst snd].
  rewrite bind_run. unfold lift at 1. rewrite Hml.
  rewrite bind_run. unfold lift at 1. rewrite Hu. reflexivity.
Qed.

End NegativePrompt.

(** C3, as the code has it.  For every call with [guidance_scale > 1.0] that
    gets to the negative-prompt checks (the prompt has a valid type, [height]
    and [width] are divisible by 8, and the tokenizer and the CLIP module
    returned for the prompt): if [negative_prompt] is given and its type is
    not the type of [prompt], the call raises the [TypeError] of the check;
    if both are lists of the same type and of different lengths, it raises
    the [ValueError] of the check. *)
Theorem negative_prompt_guard {W : Type} (env : Env W) (a : call_args)
  (s : state W) (b : Z) (ti : itensor) (te : tensor) (s1 : state W) :
  py_gt (guidance_scale a) f64_one = true ->
  batch_size_of (prompt a) = Ok b ->
  (8 | height a) -> (8 | width a) ->
  encode_prompt env a (with_batch b s) = (Ok (ti, te), s1) ->
  (negative_prompt a <> VNone ->
   type_of (negative_prompt a) <> type_of (prompt a) ->
   __call__ env a s =
     (Raise (NegativePromptType (type_of (negative_prompt a)) (type_of (prompt a))),
      s1) /\
   class_of (NegativePromptType (type_of (negative_prompt a)) (type_of (prompt a)))
     = TypeError) /\
  (forall sub items items',
      prompt a = VList sub items ->
      negative_prompt a = VList sub items' ->
      List.length items <> List.length items' ->
      __call__ env a s =
        (Raise (NegativePromptBatch (negative_prompt a)
                  (Z.of_nat (List.length items')) (prompt a)
                  (Z.of_nat (List.length items))),
         s1) /\
      class_of (NegativePromptBatch (negative_prompt a)
                  (Z.of_nat (List.length items')) (prompt a)
                  (Z.of_nat (List.length items)))
        = ValueError).
Proof.
  intros Hg Hb Hh Hw Henc.
  assert (Hc : check_height_width (height a) (width a) = Ok tt).
  { unfold check_height_width.
    apply Z.mod_divide in Hh; [|lia]. apply Z.mod_divide in Hw; [|lia].
    rewrite Hh, Hw. reflexivity. }
  split.
  - intros Hn Ht. split; [|reflexivity].
    eapply call_uncond_tokens_raise; eauto.
    unfold uncond_tokens_of.
    destruct (negative_prompt a) eqn:En; try (exfalso; apply Hn; reflexivity);
      simpl is_None; cbv iota;
      (destruct (pyclass_eqb (type_of (prompt a)) (type_of _)) eqn:E;
       [apply pyclass_eqb_eq in E; exfalso; apply Ht; symmetry; exact E
       | reflexivity]).
  - intros sub items items' Hp Hn Hl. split; [|reflexivity].
    assert (b = Z.of_nat (List.length items)).
    { rewrite Hp in Hb. unfold batch_size_of in Hb.
      cbn [isinstance_str isinstance_list py_len] in Hb. congruence. }
    subst b.
    eapply call_uncond_tokens_raise; eauto.
    unfold uncond_tokens_of. rewrite Hp, Hn. simpl is_None. cbv iota.
    replace (pyclass_eqb (type_of (VList sub items)) (type_of (VList sub items')))
      with true by (symmetry; apply pyclass_eqb_eq; reflexivity).
    simpl.
    destruct (Z.of_nat (List.length items) =? Z.of_nat (List.length items')) eqn:E;
      [apply Z.eqb_eq in E; lia | reflexivity].
Qed.

(** ** The initial latents (claim C6) *)

Section Latents.

Context {W : Type} (env : Env W) (a : call_args).

(** What follows [prepare] only adds calls. *)
Lemma call_after_prepare s :
  exists evs,
    trace (snd (__call__ env a s)) = trace (snd (prepare env a s)) ++ evs.
Proof.
  destruct (call_cases env a s)
    as [(e & s1 & Hprep & Hcall)
       | (p & s1 & r & s2 & evs & Hprep & _ & _ & Ht & _ & Hcall)].
  - exists []. rewrite Hcall, Hprep, app_nil_r. reflexivity.
  - rewrite Hprep. simpl. destruct r as [l|e].
    + destruct (maintains_decode env a l s2) as (_ & (evs' & Ht' & _) & _).
      exists (evs ++ evs'). rewrite Hcall, Ht', Ht, app_assoc. reflexivity.
    + exists evs. rewrite Hcall. exact Ht.
Qed.

(** [torch.randn] is called once, with the shape and the generator it is
    given; what it returns has that shape. *)
Lemma randn_run sh g s :
  exists r s',
    randn env sh g s = (r, s') /\
    trace s' = trace s ++ [EvRandn sh g r] /\
    forall l, r = Ok l -> shape l = sh.
Proof.
  unfold randn, call.
  destruct (forallb (fun d => 0 <=? d) sh).
  - destruct (randn_data env sh g (world s)) as [o w'].
    eexists _, _. split; [reflexivity|]. split; [reflexivity|].
    destruct o; simpl; intros l H; inversion H; reflexivity.
  - eexists _, _. split; [reflexivity|]. split; [reflexivity|].
    simpl. intros l H. discriminate.
Qed.

Lemma prepare_at_latents s b te s2 :
  batch_size_of (prompt a) = Ok b ->
  check_height_width (height a) (width a) = Ok tt ->
  text_embeddings_of env a b (with_batch b s) = (Ok te, s2) ->
  prepare env a s =
  (latents <- initial_latents env a b ;;
   lk <- prepare_scheduler env a latents ;;
   ts <- read (timesteps env) ;;
   ret {| p_text_embeddings := te;
          p_latents := fst lk;
          p_extra_step_kwargs := snd lk;
          p_timesteps := ts |}) s2.
Proof.
  intros Hb Hc Hte. rewrite prepare_run, Hb, Hc.
  unfold prepare_inputs. rewrite bind_run, Hte. reflexivity.
Qed.

Lemma maintains_scheduler_tail te l :
  maintains prepare_event low_level
    (lk <- prepare_scheduler env a l ;;
     ts <- read (timesteps env) ;;
     ret {| p_text_embeddings := te;
            p_latents := fst lk;
            p_extra_step_kwargs := snd lk;
            p_timesteps := ts |}).
Proof.
  apply maintains_bind; [apply maintains_prepare_scheduler | intros lk].
  apply maintains_bind; [apply maintains_read | intros ts; apply maintains_ret].
Qed.

(** The latents the loop starts from are the initial latents multiplied by
    [init_noise_sigma], read after [set_timesteps]. *)
Lemma prepare_latents_scaled s b te s2 l0 s3 p s1 :
  batch_size_of (prompt a) = Ok b ->
  text_embeddings_of env a b (with_batch b s) = (Ok te, s2) ->
  initial_latents env a b s2 = (Ok l0, s3) ->
  prepare env a s = (Ok p, s1) ->
  p_latents p = tensor_mul env l0 (init_noise_sigma env (world s1)).
Proof.
  intros Hb Hte Hl Hp.
  destruct (prepare_ok_inv env a s p s1 Hp)
    as (b' & s2' & l0' & s3' & Hb' & _ & Hte' & Hl' & Hk & _).
  assert (b' = b) by congruence. subst b'.
  rewrite Hte in Hte'. inversion Hte'; subst s2'.
  rewrite Hl in Hl'. inversion Hl'; subst l0' s3'.
  apply prepare_scheduler_ok_inv in Hk. apply Hk.
Qed.

End Latents.

(** C6, as the code has it.  For every call that gets to the preparation of
    the latents (valid prompt type, [height] and [width] divisible by 8, text
    embeddings computed): with [latents] supplied, the call raises the
    [ValueError] of the shape check if the shape differs from [(batch_size,
    4, height // 8, width // 8)], and never raises it otherwise; with
    [latents] not supplied, the next call is [torch.randn] with exactly that
    shape and the supplied generator, and what it returns has that shape; in
    both cases, if the call gets to the loop, the latents the loop starts
    from are these latents multiplied by [scheduler.init_noise_sigma]. *)
Theorem latents_preparation {W : Type} (env : Env W) (a : call_args)
  (s : state W) (b : Z) (te : tensor) (s2 : state W) :
  batch_size_of (prompt a) = Ok b ->
  (8 | height a) -> (8 | width a) ->
  text_embeddings_of env a b (with_batch b s) = (Ok te, s2) ->
  match latents a with
  | Some l =>
      (shape l <> latents_shape a b ->
       __call__ env a s =
         (Raise (UnexpectedLatentsShape (shape l) (latents_shape a b)), s2) /\
       class_of (UnexpectedLatentsShape (shape l) (latents_shape a b))
         = ValueError) /\
      (shape l = latents_shape a b ->
       (forall g x, fst (__call__ env a s) <> Raise (UnexpectedLatentsShape g x)) /\
       (forall p s1,
           prepare env a s = (Ok p, s1) ->
           p_latents p = tensor_mul env l (init_noise_sigma env (world s1))))
  | None =>
      exists r evs,
        trace (snd (__call__ env a s)) =
          trace s2 ++ EvRandn (latents_shape a b) (generator_ a) r :: evs /\
        (forall l, r = Ok l -> shape l = latents_shape a b) /\
        (forall p s1,
            prepare env a s = (Ok p, s1) ->
            exists l,
              r = Ok l /\
              p_latents p = tensor_mul env l (init_noise_sigma env (world s1)))
  end.
Proof.
  intros Hb Hh Hw Hte.
  assert (Hc : check_height_width (height a) (width a) = Ok tt).
  { unfold check_height_width.
    apply Z.mod_divide in Hh; [|lia]. apply Z.mod_divide in Hw; [|lia].
    rewrite Hh, Hw. reflexivity. }
  pose proof (prepare_at_latents env a s b te s2 Hb Hc Hte) as Hprep.
  destruct (latents a) as [l|] eqn:Hl.
  - split.
    + intros Hs. split; [|reflexivity].
      apply call_raise_prepare_at. rewrite Hprep, bind_run.
      unfold initial_latents. rewrite Hl, bind_run.
      destruct (shape_eqb (shape l) (latents_shape a b)) eqn:E;
        [apply shape_eqb_true in E; contradiction | reflexivity].
    + intros Hs. split.
      * intros g x H. destruct (emits_call env a s) as (_ & He).
        destruct (He _ H)
          as [Hlow | [(Hx & _) | [(Hx & _) | [(_ & Hn) | (l' & b' & Hb' & Hl' & Hne & _)]]]];
          try discriminate; try contradiction.
        assert (b' = b) by congruence. subst b'.
        assert (l' = l) by congruence. subst l'. contradiction.
      * intros p s1 Hp.
        eapply prepare_latents_scaled with (l0 := l); eauto.
        unfold initial_latents. rewrite Hl, bind_run.
        rewrite Hs. unfold shape_eqb.
        destruct (list_eq_dec Z.eq_dec (latents_shape a b) (latents_shape a b));
          [reflexivity | contradiction].
  - destruct (randn_run env (latents_shape a b) (generator_ a) s2)
      as (r & s3 & Hr & Ht & Hshape).
    assert (Hinit : initial_latents env a b s2 = (r, s3)).
    { unfold initial_latents. rewrite Hl, bind_run, Hr.
      destruct r; reflexivity. }
    destruct (call_after_prepare env a s) as (evs2 & Hcall).
    rewrite Hprep, bind_run, Hinit in Hcall.
    destruct r as [l|e].
    + destruct (maintains_scheduler_tail env a te l s3) as (_ & (evs1 & Ht1 & _) & _).
      exists (Ok l), (evs1 ++ evs2).
      split; [rewrite Hcall, Ht1, Ht, <- !app_assoc; reflexivity|].
      split; [exact Hshape|].
      intros p s1 Hp. exists l. split; [reflexivity|].
      eapply prepare_latents_scaled; eauto.
    + exists (Raise e), evs2.
      split; [rewrite Hcall; simpl; rewrite Ht, <- app_assoc; reflexivity|].
      split; [exact Hshape|].
      intros p s1 Hp. rewrite Hprep, bind_run, Hinit in Hp. discriminate.
Qed.

(** ** The range of the image (claim C10) *)

Lemma SFcompare_defined x y :
  is_nan x = false -> is_nan y = false -> exists c, SFcompare x y = Some c.
Proof.
  destruct x, y; simpl; intros Hx Hy; try discriminate; eauto.
Qed.

Lemma not_lt_le x y :
  is_nan x = false -> is_nan y = false ->
  SFltb x y = false -> SFleb y x = true.
Proof.
  intros Hx Hy. unfold SFltb, SFleb. rewrite (SFcompare_antisym x y).
  destruct (SFcompare_defined x y Hx Hy) as (c & ->).
  destruct c; simpl; intros H; try reflexivity; discriminate.
Qed.

(** [clamp(0, 1)] puts every element that is not a NaN in [[0, 1]], and
    leaves a NaN as it is. *)
Lemma clamp_elt_range v :
  is_nan v = false -> in_unit_interval (clamp_elt f32_zero f32_one v).
Proof.
  intros Hv. unfold clamp_elt. rewrite Hv.
  destruct (SFltb v f32_zero) eqn:H0.
  - vm_compute. auto.
  - destruct (SFltb f32_one v) eqn:H1.
    + vm_compute. auto.
    + split; apply not_lt_le; auto.
Qed.

Lemma clamp_elt_nan v : is_nan v = true -> clamp_elt f32_zero f32_one v = v.
Proof. intros Hv. unfold clamp_elt. rewrite Hv. reflexivity. Qed.

Lemma clamp_elt_valid v : valid_pixel (clamp_elt f32_zero f32_one v).
Proof.
  destruct (is_nan v) eqn:Hv.
  - left. rewrite clamp_elt_nan; assumption.
  - right. apply clamp_elt_range, Hv.
Qed.

Lemma normalize_image_valid image :
  Forall valid_pixel (data (normalize_image image)).
Proof.
  unfold normalize_image, clamp, tmap. simpl.
  apply Forall_map. apply Forall_forall. intros v _. apply clamp_elt_valid.
Qed.

Lemma nth_Forall {A} (P : A -> Prop) l d n : Forall P l -> P d -> P (nth n l d).
Proof.
  intros Hl Hd. revert n. induction Hl as [|x l Hx Hl IH]; intros [|n]; simpl; auto.
Qed.

(** [permute] moves the elements around. *)
Lemma permute_Forall (P : spec_float -> Prop) dims t t' :
  P (S754_zero false) -> Forall P (data t) ->
  permute dims t = Ok t' -> Forall P (data t').
Proof.
  intros Hz Ht. unfold permute.
  destruct (negb (Nat.eqb (List.length dims) (List.length (shape t))));
    intros H; inversion H; subst; clear H. simpl.
  apply Forall_map. apply Forall_forall. intros idx _.
  apply nth_Forall; assumption.
Qed.

Lemma valid_pixel_zero : valid_pixel (S754_zero false).
Proof. right. vm_compute. auto. Qed.

Section Image.

Context {W : Type} (env : Env W) (a : call_args).

Lemma postprocess_ok_inv image0 s r s' :
  postprocess env a image0 s = (Ok r, s') ->
  exists image,
    permute [0; 2; 3; 1]%nat (normalize_image image0) = Ok image /\
    generated a image s r s'.
Proof.
  unfold postprocess, generated. intros H.
  apply bind_ok_inv in H. destruct H as (im & s1 & Him & H).
  unfold lift in Him. inversion Him; subst s1; clear Him.
  exists im. split; [assumption|]. unfold numpy in *.
  apply bind_ok_inv in H. destruct H as (im' & s2 & Hout & H).
  assert (Hr : images_of r = im' /\ s' = s2).
  { destruct (negb (return_dict a)); unfold ret in H; inversion H; auto. }
  destruct Hr as (Hr & ->). rewrite Hr. clear H Hr.
  destruct (is_pil (output_type a)).
  - apply bind_ok_inv in Hout. destruct Hout as (pl & s3 & Hc & Hret).
    unfold ret in Hret. inversion Hret; subst; clear Hret.
    exists pl. split; [reflexivity|].
    unfold call in Hc. destruct (numpy_to_pil env im (world s)) as [o w'].
    destruct o; simpl in Hc; inversion Hc; subst; reflexivity.
  - unfold ret in Hout. inversion Hout; subst. auto.
Qed.

End Image.

(** C10, as the code has it.  Whenever [__call__] returns, every element of
    the generated image array (the argument of [numpy_to_pil] when
    [output_type] is ["pil"], the returned array otherwise) is in the closed
    interval [[0, 1]] or is a NaN: the array is a permutation of [(image / 2
    + 0.5).clamp(0, 1)], and [clamp] leaves a NaN as it is. *)
Theorem image_range {W : Type} (env : Env W) (a : call_args)
  (s : state W) (r : call_result) (s' : state W) :
  __call__ env a s = (Ok r, s') ->
  exists image s1,
    generated a image s1 r s' /\
    Forall valid_pixel (data image).
Proof.
  intros H. unfold __call__ in H.
  apply bind_ok_inv in H. destruct H as (p & s1 & _ & H).
  apply bind_ok_inv in H. destruct H as (l & s2 & _ & H).
  unfold decode in H.
  apply bind_ok_inv in H. destruct H as (image0 & s3 & _ & H).
  apply postprocess_ok_inv in H. destruct H as (image & Hp & Hg).
  exists image, s3. split; [exact Hg|].
  eapply permute_Forall; [apply valid_pixel_zero | | exact Hp].
  apply normalize_image_valid.
Qed.

Lemma image_range_witness :
  exists r s',
    __call__ toy_env toy_args toy_state = (Ok r, s') /\
    exists image s1,
      generated toy_args image s1 r s' /\
      Forall valid_pixel (data image).
Proof.
  eexists _, _. split; [vm_compute; reflexivity|].
  apply (image_range toy_env toy_args toy_state). vm_compute. reflexivity.
Defined.

(** ** Constants are bound and folded before a module is run (claim C7) *)

Lemma module_eqb_eq m m' : module_eqb m m' = true <-> m = m'.
Proof. destruct m, m'; simpl; split; intros H; try reflexivity; discriminate. Qed.

Lemma module_eqb_neq m m' : m <> m' -> module_eqb m m' = false.
Proof.
  intros H. destruct (module_eqb m m') eqn:E; [|reflexivity].
  apply module_eqb_eq in E. contradiction.
Qed.

Lemma ordered_app m evs1 : forall ph evs2,
  ordered m ph evs1 -> ordered m (phase_after m ph evs1) evs2 ->
  ordered m ph (evs1 ++ evs2).
Proof.
  induction evs1 as [|e evs1 IH]; intros ph evs2 H1 H2; simpl in *; [exact H2|].
  destruct H1 as (He & H1). split; [exact He | apply IH; assumption].
Qed.

Lemma phase_after_app m ph evs1 evs2 :
  phase_after m ph (evs1 ++ evs2) = phase_after m (phase_after m ph evs1) evs2.
Proof. unfold phase_after. apply fold_left_app. Qed.

Lemma neutral_advance m ph e : neutral m e -> advance m ph e = ph.
Proof.
  destruct e; simpl; intros H; try reflexivity.
  - destruct r; [|reflexivity]. rewrite (module_eqb_neq _ _ H). reflexivity.
  - destruct r; [|reflexivity]. rewrite (module_eqb_neq _ _ H). reflexivity.
Qed.

Lemma neutral_permitted m ph e : neutral m e -> permitted m ph e.
Proof. destruct e; simpl; intros H; auto; intros E; contradiction. Qed.

Lemma neutral_ordered m ph evs :
  Forall (neutral m) evs -> ordered m ph evs /\ phase_after m ph evs = ph.
Proof.
  intros H. induction H as [|e evs He H IH]; simpl; [auto|].
  unfold phase_after in *. simpl. rewrite (neutral_advance m ph e He).
  destruct IH as (IH1 & IH2). auto using neutral_permitted.
Qed.

(** Once the module is folded, the calls of [__call__] are allowed and leave
    it folded. *)
Lemma call_event_ordered m evs :
  Forall call_event evs ->
  ordered m Folded evs /\ phase_after m Folded evs = Folded.
Proof.
  intros H. induction H as [|e evs He H IH]; simpl; [auto|].
  assert (Ha : advance m Folded e = Folded /\ permitted m Folded e).
  { destruct e; simpl in *; auto;
      try (destruct He as [He | [He | He]]; contradiction). }
  destruct Ha as (Ha & Hp). unfold phase_after in *. simpl. rewrite Ha.
  destruct IH. auto.
Qed.

Lemma typed_bind {W A B} m ph ph1 ph2 (c : M W A) (k : A -> M W B) :
  typed m ph ph1 c -> (forall x, typed m ph1 ph2 (k x)) ->
  typed m ph ph2 (bind c k).
Proof.
  intros Hc Hk s. rewrite bind_run.
  destruct (Hc s) as (evs1 & Ht1 & Ho1 & Hp1).
  destruct (c s) as [[x|e] s1]; simpl in *.
  - specialize (Hp1 x eq_refl).
    destruct (Hk x s1) as (evs2 & Ht2 & Ho2 & Hp2).
    exists (evs1 ++ evs2). rewrite Ht2, Ht1, app_assoc.
    split; [reflexivity|]. split.
    + apply ordered_app; [exact Ho1 | rewrite Hp1; exact Ho2].
    + intros y Hy. rewrite phase_after_app, Hp1. apply (Hp2 y Hy).
  - exists evs1. repeat split; auto. discriminate.
Qed.

Lemma typed_emits {W A} m ph P E (c : M W A) :
  (forall e, P e -> neutral m e) -> emits P E c -> typed m ph ph c.
Proof.
  intros HP Hc s. destruct (Hc s) as ((evs & Ht & Hp) & _).
  exists evs. split; [exact Ht|].
  destruct (neutral_ordered m ph evs) as (Ho & Hph).
  { eapply Forall_impl; eauto. }
  auto.
Qed.

Lemma hub_event_neutral m e : hub_event e -> neutral m e.
Proof. destruct e; simpl; auto; contradiction. Qed.

Section InitOrder.

Context {W : Type} (env : Env W).

Lemma typed_hub {A} m ph (c : M W A) E :
  maintains hub_event E c -> typed m ph ph c.
Proof.
  intros H. eapply typed_emits; [apply hub_event_neutral |].
  apply emits_maintains. exact H.
Qed.

Lemma maintains_init_ait_module exe name workdir :
  maintains hub_event low_level (init_ait_module env exe name workdir).
Proof.
  unfold init_ait_module.
  apply maintains_call; [intros r; exact I | intros c m; exact I].
Qed.

Lemma maintains_pretrained_params what :
  maintains hub_event low_level (pretrained_params env what).
Proof.
  unfold pretrained_params.
  apply maintains_call; [intros r; exact I | intros c m; exact I].
Qed.

Lemma maintains_load_checkpoint ckpt :
  maintains hub_event low_level (load_checkpoint env ckpt).
Proof.
  unfold load_checkpoint. destruct ckpt as [file|]; [|apply maintains_ret].
  apply maintains_bind;
    [apply maintains_call; [intros r; exact I | intros c m; exact I] | intros c].
  apply maintains_bind.
  { apply maintains_lift_low.
    induction c as [d | other inner IH]; simpl; [|exact IH].
    destruct (dict_get d "state_dict"); low_cases. }
  intros d.
  apply maintains_bind; [apply maintains_lift_low; auto with low | intros u].
  apply maintains_bind; [apply maintains_lift_low; auto with low | intros v].
  apply maintains_ret.
Qed.

(** Binding the constants of [exe] takes [exe] to the folded phase by
    allowed calls, and is neutral for the other modules. *)
Lemma typed_bind_constants_same m ph p :
  typed m ph Folded (bind_constants env m p).
Proof.
  intros s. unfold bind_constants. rewrite bind_run. unfold call.
  destruct (set_many_constants_with_tensors env m p (world s)) as [o1 w1].
  destruct o1 as [[]|c msg]; simpl.
  - destruct (fold_constants env m w1) as [o2 w2].
    exists [EvSetManyConstants m p (Ok tt); EvFoldConstants m (to_res o2)].
    simpl. rewrite <- app_assoc. split; [reflexivity|].
    assert (Hm : module_eqb m m = true) by (apply module_eqb_eq; reflexivity).
    rewrite Hm. split.
    + repeat split; auto. intros _. destruct ph; discriminate.
    + intros x Hx. destruct o2 as [[]|]; [|discriminate].
      simpl. destruct ph; reflexivity.
  - exists [EvSetManyConstants m p (Raise (External c msg))]. simpl.
    repeat split; auto. discriminate.
Qed.

Lemma maintains_bind_constants_other m exe p :
  exe <> m ->
  maintains (neutral m) low_level (bind_constants env exe p).
Proof.
  intros H. unfold bind_constants.
  apply maintains_bind; [| intros _];
    (apply maintains_call; [intros r; exact H | intros c msg; exact I]).
Qed.

Lemma typed_bind_constants_other m ph exe p :
  exe <> m -> typed m ph ph (bind_constants env exe p).
Proof.
  intros H. eapply typed_emits; [intros e He; exact He|].
  apply emits_maintains. apply maintains_bind_constants_other. exact H.
Qed.

Lemma typed_lift {A} m ph (r : res A) : typed m ph ph (lift (W := W) r).
Proof.
  apply typed_hub with (E := fun _ => True). apply maintains_lift. auto.
Qed.

Lemma typed_ret {A} m ph (x : A) : typed m ph ph (ret (W := W) x).
Proof. apply typed_hub with (E := fun _ => True). apply maintains_ret. Qed.

Lemma typed_set_batch m ph b : typed m ph ph (set_batch (W := W) b).
Proof.
  eapply typed_emits; [apply hub_event_neutral | apply emits_set_batch].
  Unshelve. exact (fun _ => True).
Qed.

Ltac typed_neutral :=
  first
    [ apply typed_lift
    | apply typed_ret
    | apply typed_set_batch
    | eapply typed_hub; apply maintains_init_ait_module
    | eapply typed_hub; apply maintains_pretrained_params
    | eapply typed_hub; apply maintains_load_checkpoint
    | apply typed_bind_constants_other; discriminate
    | match goal with
      | |- typed _ _ _ (match ?d with _ => _ end) => destruct d
      end ].

Ltac typed_steps :=
  repeat (eapply typed_bind;
          [ first [ typed_neutral | apply typed_bind_constants_same ]
          | intros ? ]);
  try typed_neutral.

(** [__init__] takes each of the four modules from unbound to folded. *)
Lemma typed_init m hub ckpt workdir :
  typed m Unbound Folded (__init__ env hub ckpt workdir).
Proof.
  unfold __init__. destruct m; typed_steps.
Qed.

Lemma emits_init hub ckpt workdir :
  emits init_event (fun _ => True) (__init__ env hub ckpt workdir).
Proof.
  assert (Hm : forall (A : Type) (c : M W A),
             maintains hub_event low_level c ->
             emits init_event (fun _ => True) c).
  { intros A c H. eapply emits_weaken; [| | apply emits_maintains, H]; auto.
    intros e; destruct e; simpl; tauto. }
  assert (Hl : forall (A : Type) (r : res A),
             emits init_event (fun _ => True) (lift (W := W) r)).
  { intros A r. apply emits_lift. auto. }
  assert (Hb : forall exe p,
             emits init_event (fun _ => True) (bind_constants env exe p)).
  { intros exe p. apply emits_maintains. unfold bind_constants.
    apply maintains_bind; [| intros _];
      (apply maintains_call; [intros r; exact I | intros c msg; exact I]). }
  unfold __init__.
  repeat (apply emits_bind;
          [ first [ apply Hl | apply Hb
                  | apply Hm, maintains_init_ait_module
                  | apply Hm, maintains_pretrained_params
                  | apply Hm, maintains_load_checkpoint
                  | match goal with
                    | |- emits _ _ (match ?d with _ => _ end) =>
                        destruct d;
                        first [ apply Hm, maintains_pretrained_params
                              | apply emits_maintains, maintains_ret ]
                    end ]
          | intros ? ]).
  apply emits_set_batch.
Qed.

(** A computation that only makes the calls of [__call__], whatever it
    does, keeps a folded module folded. *)
Lemma typed_try {A} m E (c : M W A) :
  emits call_event E c -> typed m Folded Folded (try c).
Proof.
  intros H s. destruct (H s) as ((evs & Ht & HP) & _).
  exists evs. unfold try. simpl. split; [exact Ht|].
  destruct (call_event_ordered m evs HP). auto.
Qed.

Lemma is_run_call_event m e : is_run m e -> call_event e.
Proof.
  unfold call_event. destruct e; simpl; try contradiction.
  intros <-. destruct m0; auto.
Qed.

Lemma typed_invoke m i : typed m Folded Folded (invoke env i).
Proof.
  destruct i; simpl.
  - eapply typed_try, emits_call.
  - eapply typed_try, emits_maintains, maintains_weaken;
      [apply is_run_call_event | intros e He; exact He
      | apply maintains_controlnet_inference].
  - eapply typed_try, emits_maintains, maintains_weaken;
      [apply is_run_call_event | intros e He; exact He
      | apply maintains_unet_inference].
  - eapply typed_try, emits_maintains, maintains_weaken;
      [apply is_run_call_event | intros e He; exact He
      | apply maintains_clip_inference].
  - eapply typed_try, emits_maintains, maintains_weaken;
      [apply is_run_call_event | intros e He; exact He
      | apply maintains_vae_inference].
Qed.

Lemma typed_client m ph f : typed m ph ph (client (W := W) f).
Proof.
  intros s. exists []. simpl. rewrite app_nil_r. auto.
Qed.

Lemma typed_mapM {A B} m ph (f : A -> M W B) l :
  (forall x, typed m ph ph (f x)) -> typed m ph ph (mapM f l).
Proof.
  intros Hf. induction l as [|x l IH]; simpl; [apply typed_ret|].
  eapply typed_bind; [apply Hf | intros y].
  eapply typed_bind; [exact IH | intros ys; apply typed_ret].
Qed.

Lemma typed_session m hub ckpt workdir calls :
  typed m Unbound Folded (session env hub ckpt workdir calls).
Proof.
  unfold session.
  eapply typed_bind; [apply typed_init | intros _].
  eapply typed_bind; [| intros _; apply typed_ret].
  apply typed_mapM. intros c.
  eapply typed_bind; [apply typed_client | intros _; apply typed_invoke].
Qed.

End InitOrder.

Lemma ordered_app_inv m pre : forall ph e post,
  ordered m ph (pre ++ e :: post) -> permitted m (phase_after m ph pre) e.
Proof.
  induction pre as [|x pre IH]; intros ph e post H; simpl in *.
  - apply H.
  - destruct H as (_ & H). apply (IH _ _ _ H).
Qed.

Lemma phase_after_snoc m ph evs e :
  phase_after m ph (evs ++ [e]) = advance m (phase_after m ph evs) e.
Proof. rewrite phase_after_app. reflexivity. Qed.

Lemma advance_bound m e :
  advance m Unbound e <> Unbound -> exists p, e = EvSetManyConstants m p (Ok tt).
Proof.
  destruct e; simpl; try congruence.
  - destruct r as [[]|]; try congruence.
    destruct (module_eqb m0 m) eqn:E; try congruence.
    apply module_eqb_eq in E. subst. eauto.
  - destruct r as [[]|]; try congruence.
    destruct (module_eqb m0 m); congruence.
Qed.

Lemma bound_inv m evs :
  phase_after m Unbound evs <> Unbound ->
  exists p pre1 pre2, evs = pre1 ++ EvSetManyConstants m p (Ok tt) :: pre2.
Proof.
  induction evs as [|e evs IH] using rev_ind; intros H.
  - exfalso. apply H. reflexivity.
  - rewrite phase_after_snoc in H.
    destruct (phase_after m Unbound evs) eqn:Hph.
    + apply advance_bound in H. destruct H as (p & ->). exists p, evs, []. reflexivity.
    + destruct IH as (p & pre1 & pre2 & ->); [discriminate|].
      exists p, pre1, (pre2 ++ [e]). rewrite <- app_assoc. reflexivity.
    + destruct IH as (p & pre1 & pre2 & ->); [discriminate|].
      exists p, pre1, (pre2 ++ [e]). rewrite <- app_assoc. reflexivity.
Qed.

Lemma advance_folded m ph e :
  ph <> Folded -> advance m ph e = Folded ->
  ph = Bound /\ e = EvFoldConstants m (Ok tt).
Proof.
  intros Hph. destruct e; simpl; try congruence.
  - destruct r as [[]|]; try congruence.
    destruct (module_eqb m0 m); destruct ph; congruence.
  - destruct r as [[]|]; try congruence.
    destruct (module_eqb m0 m) eqn:E; try congruence.
    apply module_eqb_eq in E. subst. destruct ph; try congruence. auto.
Qed.

Lemma folded_inv m evs :
  phase_after m Unbound evs = Folded -> bound_and_folded m evs.
Proof.
  induction evs as [|e evs IH] using rev_ind; intros H.
  - discriminate.
  - rewrite phase_after_snoc in H.
    destruct (phase_after m Unbound evs) eqn:Hph.
    + apply advance_folded in H; [|discriminate]. destruct H; discriminate.
    + apply advance_folded in H; [|discriminate]. destruct H as (_ & ->).
      destruct (bound_inv m evs) as (p & pre1 & pre2 & ->);
        [rewrite Hph; discriminate|].
      exists p, pre1, pre2, []. rewrite <- app_assoc. reflexivity.
    + destruct (IH eq_refl) as (p & e1 & e2 & e3 & ->).
      exists p, e1, e2, (e3 ++ [e]).
      rewrite <- !app_assoc. simpl. rewrite <- !app_assoc. reflexivity.
Qed.

(** What [ordered] says, call by call. *)
Lemma ordered_fold m pre r post :
  ordered m Unbound (pre ++ EvFoldConstants m r :: post) ->
  exists p pre1 pre2, pre = pre1 ++ EvSetManyConstants m p (Ok tt) :: pre2.
Proof.
  intros H. apply ordered_app_inv in H. simpl in H.
  apply bound_inv. apply H. reflexivity.
Qed.

Lemma ordered_run m pre inputs ys r post :
  ordered m Unbound (pre ++ EvRunWithTensors m inputs ys r :: post) ->
  bound_and_folded m pre.
Proof.
  intros H. apply ordered_app_inv in H. simpl in H.
  apply folded_inv. apply H. reflexivity.
Qed.

(** C7. For each of the four compiled modules [m], in every use of the
    pipeline (construction, then any number of calls of it and of its four
    inference methods): [__init__] calls
    [fold_constants] on [m] only after [set_many_constants_with_tensors] has
    returned on [m], and runs no module; when [__init__] returns, both have
    returned on [m], in that order; and every [run_with_tensors] on [m]
    comes after [fold_constants] has returned on [m]. *)
Theorem constants_folded_before_run {W : Type} (env : Env W)
  (hf_hub_or_path : string) (ckpt : option string) (workdir : string)
  (calls : list ((W -> W) * invocation)) (s : state W) (m : ait_module) :
  exists evs0 evs1,
    trace (snd (__init__ env hf_hub_or_path ckpt workdir s)) = trace s ++ evs0 /\
    trace (snd (session env hf_hub_or_path ckpt workdir calls s))
      = trace s ++ evs0 ++ evs1 /\
    Forall init_event evs0 /\
    (forall pre r post,
        evs0 = pre ++ EvFoldConstants m r :: post ->
        exists p pre1 pre2,
          pre = pre1 ++ EvSetManyConstants m p (Ok tt) :: pre2) /\
    (fst (__init__ env hf_hub_or_path ckpt workdir s) = Ok tt ->
     bound_and_folded m evs0) /\
    (forall pre inputs ys r post,
        evs0 ++ evs1 = pre ++ EvRunWithTensors m inputs ys r :: post ->
        bound_and_folded m pre).
Proof.
  destruct (typed_init env m hf_hub_or_path ckpt workdir s)
    as (evs0 & Ht0 & Ho0 & Hp0).
  destruct (typed_session env m hf_hub_or_path ckpt workdir calls s)
    as (evs & Ht & Ho & _).
  destruct (emits_init env hf_hub_or_path ckpt workdir s) as ((evs0' & Ht0' & Hi) & _).
  assert (evs0' = evs0)
    by (rewrite Ht0 in Ht0'; apply app_inv_head in Ht0'; auto).
  subst evs0'.
  assert (Hpre : exists evs1, evs = evs0 ++ evs1).
  { unfold session in Ht. rewrite bind_run in Ht.
    destruct (__init__ env hf_hub_or_path ckpt workdir s) as [[u|e] s1];
      simpl in Ht0, Ht.
    - match type of Ht with
      | trace (snd (?c s1)) = _ => assert (Hty : typed m Folded Folded c)
      end.
      { eapply (typed_bind m Folded Folded Folded).
        - apply typed_mapM. intros c.
          eapply typed_bind; [apply typed_client | intros _; apply typed_invoke].
        - intros _. apply typed_ret. }
      destruct (Hty s1) as (evs1 & Hrest & _). exists evs1.
      rewrite Hrest, Ht0, <- app_assoc in Ht. apply app_inv_head in Ht. auto.
    - exists []. rewrite app_nil_r. rewrite Ht0 in Ht.
      apply app_inv_head in Ht. auto. }
  destruct Hpre as (evs1 & ->).
  exists evs0, evs1. split; [exact Ht0|]. split; [exact Ht|].
  split; [exact Hi|]. split; [|split].
  - intros pre r post E. rewrite E in Ho0. eapply ordered_fold; eauto.
  - intros H. apply folded_inv. destruct (fst (__init__ _ _ _ _ s)) eqn:E;
      [|discriminate]. eapply Hp0. reflexivity.
  - intros pre inputs ys r post E. rewrite E in Ho. eapply ordered_run; eauto.
Qed.

(** ** Concrete runs *)

(** The run on [toy_args] goes through the two timesteps. *)
Example toy_call_steps :
  List.length (filter is_stepb (trace (snd (__call__ toy_env toy_args toy_state))))
  = 2%nat.
Proof. vm_compute. reflexivity. Qed.

(** On the toy environment [__init__] returns, and the session runs the
    modules eight times: CLIP twice, ControlNet and UNet on each of the two
    timesteps, the VAE at the end of the call and once more on its own. *)
Example toy_session_runs :
  fst (__init__ toy_env "hub" None "tmp/" toy_state) = Ok tt /\
  List.length (filter is_runb (trace (snd (toy_session toy_state)))) = 8%nat.
Proof. split; vm_compute; reflexivity. Qed.

(** C4: a [ValueError] is raised although [prompt] is a [str] (the one of
    the check of [height] and [width]). *)
Lemma value_error_with_str_prompt :
  isinstance_str (prompt toy_args_height_4) = true /\
  exists e,
    fst (__call__ toy_env toy_args_height_4 toy_state) = Raise e /\
    class_of e = ValueError.
Proof.
  split; [reflexivity|]. exists (BadHeightWidth 4 8). split; reflexivity.
Qed.

Lemma height_width_guard_witness :
  __call__ toy_env toy_args_height_4 toy_state
  = (Raise (BadHeightWidth 4 8), toy_state) /\
  class_of (BadHeightWidth 4 8) = ValueError.
Proof.
  apply (height_width_guard toy_env toy_args_height_4 toy_state).
  - left. reflexivity.
  - left. intros (k & Hk). simpl in Hk. lia.
Defined.

(** C3: with [guidance_scale = 1.0] a [negative_prompt] of another type
    than [prompt] raises nothing: the call returns. *)
Lemma no_type_error_without_guidance :
  negative_prompt toy_args_no_guidance <> VNone /\
  type_of (negative_prompt toy_args_no_guidance)
    <> type_of (prompt toy_args_no_guidance) /\
  exists r s', __call__ toy_env toy_args_no_guidance toy_state = (Ok r, s').
Proof.
  split; [discriminate|]. split; [discriminate|].
  eexists _, _. vm_compute. reflexivity.
Qed.

Lemma negative_prompt_guard_witness :
  exists ti te s1,
    encode_prompt toy_env toy_args_negative_list (with_batch 1 toy_state)
      = (Ok (ti, te), s1) /\
    __call__ toy_env toy_args_negative_list toy_state
      = (Raise (NegativePromptType ClsList ClsStr), s1).
Proof.
  eexists _, _, _. split; [vm_compute; reflexivity|].
  refine (proj1 (proj1 (negative_prompt_guard toy_env toy_args_negative_list
                          toy_state 1 _ _ _ eq_refl eq_refl _ _ _) _ _)).
  - exists 1. reflexivity.
  - exists 1. reflexivity.
  - vm_compute. reflexivity.
  - discriminate.
  - discriminate.
Defined.

Lemma negative_prompt_ignored_witness :
  __call__ toy_env (with_negative_prompt VNone toy_args_no_guidance) toy_state
  = __call__ toy_env (with_negative_prompt (VInt 3) toy_args_no_guidance) toy_state.
Proof.
  apply (negative_prompt_ignored toy_env toy_args_no_guidance VNone (VInt 3)
           toy_state).
  reflexivity.
Defined.

(** C6: [latents] is supplied with another shape than [(1, 4, 1, 1)], and
    the call raises a [TypeError] (the one of the negative-prompt check), not
    a [ValueError]. *)
Lemma type_error_with_bad_latents :
  exists l e s',
    latents toy_args_bad_latents = Some l /\
    shape l <> latents_shape toy_args_bad_latents 1 /\
    __call__ toy_env toy_args_bad_latents toy_state = (Raise e, s') /\
    class_of e = TypeError.
Proof.
  eexists _, _, _. split; [reflexivity|]. split; [discriminate|].
  split; [vm_compute; reflexivity | reflexivity].
Qed.

Lemma latents_preparation_witness :
  exists te s2,
    text_embeddings_of toy_env toy_args 1 (with_batch 1 toy_state) = (Ok te, s2) /\
    exists r evs,
      trace (snd (__call__ toy_env toy_args toy_state)) =
        trace s2 ++ EvRandn (latents_shape toy_args 1) (generator_ toy_args) r :: evs /\
      (forall l, r = Ok l -> shape l = latents_shape toy_args 1) /\
      (forall p s1,
          prepare toy_env toy_args toy_state = (Ok p, s1) ->
          exists l,
            r = Ok l /\
            p_latents p = tensor_mul toy_env l (init_noise_sigma toy_env (world s1))).
Proof.
  eexists _, _. split; [vm_compute; reflexivity|].
  refine (latents_preparation toy_env toy_args toy_state 1 _ _ eq_refl _ _ _).
  - exists 1. reflexivity.
  - exists 1. reflexivity.
  - vm_compute. reflexivity.
Defined.

(** C10: with a NaN in the supplied latents and collaborators that
    propagate it, the call returns an array whose elements are NaN, not in
    [[0, 1]]. *)
Lemma nan_image :
  exists r s' image,
    __call__ toy_env toy_args_nan_latents toy_state = (Ok r, s') /\
    images_of r = NumpyArray image /\
    ~ Forall in_unit_interval (data image).
Proof.
  eexists _, _, _. split; [vm_compute; reflexivity|].
  split; [reflexivity|].
  intros H. inversion H as [|v l (Hv & _) _]. vm_compute in Hv. discriminate.
Qed.
